(** * search_parser.py: hostname tallies of SERP results, batch pipeline

    A shallow embedding of [src/search_parser.py].  Python values decoded
    from JSON are a tagged union, exceptions are an explicit error monad,
    the shared request payload and the output file are threaded as state,
    and the thread pool of [process_in_batches] is a labelled transition
    system whose labels are the scheduler's and the network's choices. *)

From stdpp Require Import gmap strings list fin_maps sorting.
From Stdlib Require Import ZArith Lia Ascii.

Local Open Scope string_scope.
Local Open Scope list_scope.
Local Open Scope nat_scope.

(** ** Exceptions *)

(** The subclasses of [Exception] that the modelled code can meet.  Every
    handler of the source is [except Exception], so the class never decides
    a branch; it is kept for reading the traces. *)
Inductive exn : Type :=
  | AttributeError
  | TypeError
  | ValueError
  | KeyError
  | JSONDecodeError
  | ConnectionError
  | Timeout
  | OSError.

Inductive result (A : Type) : Type :=
  | Ok (a : A)
  | Raise (e : exn).
Arguments Ok {A} a.
Arguments Raise {A} e.

#[export] Instance result_ret : MRet result := λ A a, Ok a.
#[export] Instance result_bind : MBind result := λ A B k m,
  match m with
  | Ok a => k a
  | Raise e => Raise e
  end.

(** [try: body except Exception: handler] *)
Definition try_except {A} (body : result A) (handler : exn → result A) : result A :=
  match body with
  | Ok a => Ok a
  | Raise e => handler e
  end.

Definition raises {A} (m : result A) : Prop := ∃ e, m = Raise e.

(** ** JSON-decoded values *)

(** What [response.json()] can return.  Objects are Python dicts keyed by
    strings.  A number literal is kept as an integer: the code never
    computes with one. *)
#[local] Set Warnings "-register-all".
Inductive json : Type :=
  | JNull
  | JBool (b : bool)
  | JNum (n : Z)
  | JStr (s : string)
  | JArr (l : list json)
  | JObj (m : gmap string json).

(** [o.get(key, default)]: only a dict has the method. *)
Definition py_get (o : json) (key : string) (dflt : json) : result json :=
  match o with
  | JObj m => Ok (default dflt (m !! key))
  | _ => Raise AttributeError
  end.
#[local] Set Warnings "register-all".

(** [v[:10]]: a list gives its first ten elements and a string its first
    ten characters; nothing else that JSON decodes to can be sliced (a dict
    raises [TypeError] before Python 3.12 and [KeyError] since). *)
Definition py_slice10 (v : json) : result (list json) :=
  match v with
  | JArr l => Ok (take 10 l)
  | JStr s => Ok ((λ c, JStr (String c "")) <$> take 10 (String.list_ascii_of_string s))
  | _ => Raise TypeError
  end.

(** ** The libraries the module calls *)

(** [urllib.parse.urlparse(url).hostname], evaluated on whatever value the
    [link] member holds: a host name, [None], or an exception.  The empty
    URL has no host. *)
Class Urllib := {
  urlparse_hostname : json → result (option string);
  urlparse_hostname_empty : urlparse_hostname (JStr "") = Ok None;
}.

Definition occurrences (h : string) (l : list string) : nat :=
  length (filter (h =.) l).

(** [pandas.Series(l).value_counts().to_dict()]: one entry per distinct
    value with the number of times it occurs, most frequent first.  pandas
    fixes no order among equal counts, and neither does this interface.
    The dict keeps the order of the Series, so it is a list of pairs. *)
Class Pandas := {
  value_counts : list string → list (string * nat);
  value_counts_NoDup l : NoDup (value_counts l).*1;
  value_counts_elem l h c :
    (h, c) ∈ value_counts l ↔ h ∈ l ∧ c = occurrences h l;
  value_counts_descending l :
    Sorted (λ x y : string * nat, y.2 ≤ x.2) (value_counts l);
}.

(** A dict from host name to count, in iteration order. *)
Abbreviation hostname_count := (list (string * nat)).

(** ** Data of the pipeline *)

(** The request payload built in [main]: a dict whose one member ["data"]
    is a dict of form fields.  It is one object, shared by every call. *)
Record RequestPayload := { data : gmap string string }.

Record Request := {
  req_url : string;
  req_json : RequestPayload;
  req_headers : list (string * string);
}.

(** What the network does with a request: [requests.post] raises, or a
    response arrives whose [json()] decodes or raises. *)
Inductive http_outcome : Type :=
  | TransportFailure (e : exn)
  | Response (status_code : Z) (body : result json).

(** One row of the output file: search term, host name, count. *)
Abbreviation row := (string * string * nat)%type.

(** Files by name, each a list of rows; a missing name is no file. *)
Abbreviation filesystem := (gmap string (list row)).

Definition read_rows (fs : filesystem) (filename : string) : list row :=
  default [] (fs !! filename).

Record api_call := {
  payload_after : RequestPayload;
  request_sent : Request;
  returned : result (string * option hostname_count);
}.

(** A finished future: the term it was submitted for (the value of the
    [futures] dict) and what [future.result()] gives. *)
Record future := {
  fut_term : string;
  fut_result : result (string * option hostname_count);
}.

(** [st.error] messages. *)
Inductive notice : Type :=
  | FailedToProcess (search_term : string)
  | ErrorProcessing (term : string) (e : exn).

(** The thread pool and the main thread of [process_in_batches].  The
    payload is the one shared object; the wire records each request with
    the term of the task that sent it. *)
Record state := {
  st_payload : RequestPayload;
  st_queue : list string;
  st_running : list string;
  st_done : list future;
  st_yielded : nat;
  st_wire : list (string * Request);
  st_fs : filesystem;
  st_results : list (string * hostname_count);
  st_notices : list notice;
}.

(** The moves of the pool: a free worker takes the next queued term and
    runs line 51; the [i]-th running worker performs its POST and the
    network answers [o]; [as_completed] hands the [i]-th finished future to
    the loop body. *)
Inductive label : Type :=
  | Start
  | Post (i : nat) (o : http_outcome)
  | Yield (i : nat).

Section search_parser.
Context `{!Urllib, !Pandas}.

(** ** [extract_hostname] (lines 10-14) *)
Definition extract_hostname (url : json) : result (option string) :=
  try_except (urlparse_hostname url) (λ _, Ok None).

(** ** [parse_organic_results] (lines 18-33) *)

(** [if hostname: links.append(hostname)]: [None] and the empty string
    are falsy. *)
Definition append_if_truthy (links : list string) (hostname : option string)
    : list string :=
  match hostname with
  | Some h => if decide (h = "") then links else links ++ [h]
  | None => links
  end.

(** The loop of lines 25-29, [links] being the accumulator. *)
Fixpoint collect_links (top_10 : list json) (links : list string)
    : result (list string) :=
  match top_10 with
  | [] => Ok links
  | r :: rest =>
      link ← py_get r "link" (JStr "");
      hostname ← extract_hostname link;
      collect_links rest (append_if_truthy links hostname)
  end.

(** Line 20. *)
Definition organic_results (json_data : json) : result json :=
  results ← py_get json_data "results" (JObj ∅);
  inner ← py_get results "results" (JObj ∅);
  py_get inner "organic" (JArr []).

(** Lines 20-33.  The [print] of line 21 writes to standard output only
    and is left out. *)
Definition parse_organic_results (json_data : json) : result hostname_count :=
  organic_results ← organic_results json_data;
  top_10 ← py_slice10 organic_results;
  links ← collect_links top_10 [];
  mret (value_counts links).

(** ** [append_to_csv] (lines 37-41) *)

(** [open(filename, mode="a")] creates a missing file and otherwise
    positions at its end; [writer.writerow] adds one row per item of
    [data], in the dict's iteration order.  The file is its list of rows;
    a disk that fails is outside the model. *)
Definition append_to_csv (fs : filesystem) (filename : string)
    (data : hostname_count) (search_term : string) : filesystem :=
  <[filename :=
      read_rows fs filename ++
      ((λ item, (search_term, item.1, item.2)) <$> data)]> fs.

(** ** [call_api] (lines 45-61) *)

Definition headers (api_key : string) : list (string * string) :=
  [("accept", "application/json");
   ("authorization", "Bearer " +:+ api_key);
   ("content-type", "application/json")].

(** Line 51, [payload["data"]["q"] = search_term]: an assignment into
    the dict the caller passed. *)
Definition set_search_term (payload : RequestPayload) (search_term : string)
    : RequestPayload :=
  {| data := <["q" := search_term]> (data payload) |}.

(** Line 54: the request serialises the payload object as it is when
    [requests.post] runs. *)
Definition post_request (api_url api_key : string) (payload : RequestPayload)
    : Request :=
  {| req_url := api_url; req_json := payload; req_headers := headers api_key |}.

(** Lines 53-61, given what the network did with the request. *)
Definition call_api_try (search_term : string) (o : http_outcome)
    : result (string * option hostname_count) :=
  try_except
    (match o with
     | TransportFailure e => Raise e
     | Response status_code body =>
         if decide (status_code = 200%Z) then
           json_data ← body;
           hostname_count ← parse_organic_results json_data;
           mret (search_term, Some hostname_count)
         else mret (search_term, None)
     end)
    (λ _, Ok (search_term, None)).

(** One whole call with nothing else running: the payload object after
    the call, the request that went out, and the value returned. *)
Definition call_api (api_url api_key : string) (payload : RequestPayload)
    (search_term : string) (network : Request → http_outcome) : api_call :=
  let payload := set_search_term payload search_term in
  let request := post_request api_url api_key payload in
  {| payload_after := payload;
     request_sent := request;
     returned := call_api_try search_term (network request) |}.

(** ** [process_in_batches] (lines 65-89) *)

Section pool.
Variables (api_url api_key : string) (output_csv : string) (batch_size : Z).

(** The body of the loop at line 77 for one finished future. *)
Definition handle_future (f : future) (st : state) : state :=
  match fut_result f with
  | Ok (search_term, Some ((_ :: _) as hostname_count)) =>
      {| st_payload := st_payload st; st_queue := st_queue st;
         st_running := st_running st; st_done := st_done st;
         st_yielded := st_yielded st; st_wire := st_wire st;
         st_fs := append_to_csv (st_fs st) output_csv hostname_count search_term;
         st_results := st_results st ++ [(search_term, hostname_count)];
         st_notices := st_notices st |}
  | Ok (search_term, _) =>
      {| st_payload := st_payload st; st_queue := st_queue st;
         st_running := st_running st; st_done := st_done st;
         st_yielded := st_yielded st; st_wire := st_wire st;
         st_fs := st_fs st; st_results := st_results st;
         st_notices := st_notices st ++ [FailedToProcess search_term] |}
  | Raise e =>
      {| st_payload := st_payload st; st_queue := st_queue st;
         st_running := st_running st; st_done := st_done st;
         st_yielded := st_yielded st; st_wire := st_wire st;
         st_fs := st_fs st; st_results := st_results st;
         st_notices := st_notices st ++ [ErrorProcessing (fut_term f) e] |}
  end.

Definition step (l : label) (st : state) : option state :=
  match l with
  | Start =>
      match st_queue st with
      | term :: queue =>
          if decide (Z.of_nat (length (st_running st)) < batch_size)%Z then
            Some {| st_payload := set_search_term (st_payload st) term;
                    st_queue := queue;
                    st_running := st_running st ++ [term];
                    st_done := st_done st; st_yielded := st_yielded st;
                    st_wire := st_wire st; st_fs := st_fs st;
                    st_results := st_results st; st_notices := st_notices st |}
          else None
      | [] => None
      end
  | Post i o =>
      term ← st_running st !! i;
      Some {| st_payload := st_payload st; st_queue := st_queue st;
              st_running := delete i (st_running st);
              st_done := st_done st ++
                [{| fut_term := term; fut_result := call_api_try term o |}];
              st_yielded := st_yielded st;
              st_wire := st_wire st ++
                [(term, post_request api_url api_key (st_payload st))];
              st_fs := st_fs st; st_results := st_results st;
              st_notices := st_notices st |}
  | Yield i =>
      f ← st_done st !! i;
      Some (handle_future f
              {| st_payload := st_payload st; st_queue := st_queue st;
                 st_running := st_running st;
                 st_done := delete i (st_done st);
                 st_yielded := S (st_yielded st);
                 st_wire := st_wire st; st_fs := st_fs st;
                 st_results := st_results st; st_notices := st_notices st |})
  end.

Fixpoint exec (ls : list label) (st : state) : option state :=
  match ls with
  | [] => Some st
  | l :: ls => st' ← step l st; exec ls st'
  end.

(** The state after line 75: every term submitted, nothing started. *)
Definition submitted (payload : RequestPayload) (search_terms : list string)
    (fs : filesystem) : state :=
  {| st_payload := payload; st_queue := search_terms; st_running := [];
     st_done := []; st_yielded := 0; st_wire := [];
     st_fs := fs; st_results := []; st_notices := [] |}.

(** [ThreadPoolExecutor(max_workers=batch_size)] refuses a size below
    one with [ValueError], before anything is submitted. *)
Definition process_in_batches_enter (payload : RequestPayload)
    (search_terms : list string) (fs : filesystem) : result state :=
  if decide (batch_size ≤ 0)%Z then Raise ValueError
  else Ok (submitted payload search_terms fs).

(** [as_completed] is exhausted, the [with] block is left and line 89
    returns [st_results]. *)
Definition returned_from (search_terms : list string) (st : state) : Prop :=
  st_yielded st = length search_terms.

(** A run of the whole function: the scheduler's and the network's
    choices [ls] take the submitted state to one where line 89 runs. *)
Definition process_in_batches (payload : RequestPayload)
    (search_terms : list string) (fs : filesystem) (ls : list label)
    : result (option state) :=
  st ← process_in_batches_enter payload search_terms fs;
  mret (st' ← exec ls st;
        if decide (st_yielded st' = length search_terms) then Some st' else None).
End pool.

End search_parser.

(** ** [main] (lines 93-149) *)

(** What [pd.read_csv] makes of the uploaded file: an exception, or the
    columns by header.  A cell is kept as its text; what type pandas gives
    it decides no branch of the code. *)
Abbreviation dataframe := (gmap string (list string)).

(** What the widgets hold when the script runs.  Streamlit runs [main]
    from the top on every interaction and each widget call returns its
    current value: the text inputs and select boxes a string, the slider an
    integer, the buttons whether they were just pressed, the uploader the
    file or [None]. *)
Record form := {
  in_api_url : string;
  in_api_key : string;
  in_domain : string;
  in_loc : string;
  in_lang : string;
  in_device : string;
  in_serp_type : string;
  in_page : string;
  in_num_results : string;
  in_verbatim : string;
  in_batch_size : Z;
  in_submit_params : bool;
  in_input_csv : option (result dataframe);
  in_output_csv : string;
  in_start : bool;
}.

(** What the page shows below the widgets. *)
Inductive shown : Type :=
  | ShowNotice (n : notice)
  | ShowMissingInputs
  | ShowComplete
  | ShowDownload (file_name : string) (content : list row).

(** One run of the script: the files and the requests sent when it ends,
    what it showed, and the exception that ended it, if one did. *)
Record script_run := {
  run_fs : filesystem;
  run_wire : list (string * Request);
  run_shown : list shown;
  run_raised : option exn;
}.

(** Lines 117-127. *)
Definition build_payload (f : form) : RequestPayload :=
  {| data := {[ "domain" := in_domain f; "loc" := in_loc f; "lang" := in_lang f;
                "device" := in_device f; "serp_type" := in_serp_type f;
                "page" := in_page f; "verbatim" := in_verbatim f ]} |}.

(** [terms_df["search_terms"].tolist()]: a missing column is a
    [KeyError]. *)
Definition column (terms_df : dataframe) (name : string) : result (list string) :=
  match terms_df !! name with
  | Some cells => Ok cells
  | None => Raise KeyError
  end.

(** [open(output_csv, "rb")]: a missing file is a [FileNotFoundError], an
    [OSError]. *)
Definition open_rb (fs : filesystem) (filename : string) : result (list row) :=
  match fs !! filename with
  | Some rows => Ok rows
  | None => Raise OSError
  end.

Section main.
Context `{!Urllib, !Pandas}.

(** Lines 136-147, inside [with st.spinner]: nothing here is caught.  [ls]
    are the moves of the batch run; [None] when they are not a whole
    run. *)
Definition start_processing (f : form) (upload : result dataframe)
    (fs : filesystem) (ls : list label) : option script_run :=
  let stopped e :=
    Some {| run_fs := fs; run_wire := []; run_shown := []; run_raised := Some e |} in
  match upload with
  | Raise e => stopped e
  | Ok terms_df =>
      match column terms_df "search_terms" with
      | Raise e => stopped e
      | Ok search_terms =>
          match process_in_batches (in_api_url f) (in_api_key f) (in_output_csv f)
                  (in_batch_size f) (build_payload f) search_terms fs ls with
          | Raise e => stopped e
          | Ok None => None
          | Ok (Some st) =>
              let shown := (ShowNotice <$> st_notices st) ++ [ShowComplete] in
              match open_rb (st_fs st) (in_output_csv f) with
              | Raise e =>
                  Some {| run_fs := st_fs st; run_wire := st_wire st;
                          run_shown := shown; run_raised := Some e |}
              | Ok content =>
                  Some {| run_fs := st_fs st; run_wire := st_wire st;
                          run_shown := shown ++ [ShowDownload (in_output_csv f) content];
                          run_raised := None |}
              end
          end
      end
  end.

(** Lines 133-149.  [if input_csv and api_url and api_key]: an uploaded
    file is truthy, a string is truthy when it is not empty. *)
Definition main (f : form) (fs : filesystem) (ls : list label) : option script_run :=
  if in_start f then
    match in_input_csv f with
    | Some upload =>
        if decide (in_api_url f ≠ "" ∧ in_api_key f ≠ "")
        then start_processing f upload fs ls
        else Some {| run_fs := fs; run_wire := []; run_shown := [ShowMissingInputs];
                     run_raised := None |}
    | None =>
        Some {| run_fs := fs; run_wire := []; run_shown := [ShowMissingInputs];
                run_raised := None |}
    end
  else Some {| run_fs := fs; run_wire := []; run_shown := []; run_raised := None |}.

End main.

(** The inputs that let [main] start the batch over [search_terms]: the
    button pressed, an endpoint and a key, and an uploaded file that parses
    and has the column. *)
Definition ready (f : form) (search_terms : list string) : Prop :=
  in_start f = true ∧ in_api_url f ≠ "" ∧ in_api_key f ≠ "" ∧
  ∃ terms_df, in_input_csv f = Some (Ok terms_df) ∧
    terms_df !! "search_terms" = Some search_terms.

(** The ranges the widgets of lines 106-113 allow. *)
Definition form_in_range (f : form) : Prop :=
  in_device f ∈ ["desktop"; "mobile"; "tablet"] ∧
  in_serp_type f ∈ ["web"; "news"; "images"; "videos"] ∧
  (10 ≤ in_batch_size f ≤ 100)%Z.

(** ** Reference instances of the two libraries *)

(** The host name that CPython's [urlsplit] and [SplitResult.hostname]
    compute (Python 3.12) on ASCII text without control characters or
    leading blanks; the check that a bracketed host is an IP literal is
    left out.  The theorems below hold for every instance; this one runs
    the examples. *)
Module cpython.

(** [s.partition(c)]: the text before the first [c], and the text after
    it when [c] occurs. *)
Fixpoint partition (c : ascii) (s : string) : string * option string :=
  match s with
  | "" => ("", None)
  | String a s' =>
      if decide (a = c) then ("", Some s')
      else let '(before, after) := partition c s' in (String a before, after)
  end.

Fixpoint contains (c : ascii) (s : string) : bool :=
  match s with
  | "" => false
  | String a s' => bool_decide (a = c) || contains c s'
  end.

(** [s.rpartition(c)[2]]: the text after the last [c], all of [s] when
    there is none. *)
Fixpoint after_last (c : ascii) (s : string) : string :=
  match s with
  | "" => ""
  | String a s' =>
      if contains c s' then after_last c s'
      else if decide (a = c) then s' else s
  end.

Fixpoint take_until (stop : ascii → bool) (s : string) : string :=
  match s with
  | "" => ""
  | String a s' => if stop a then "" else String a (take_until stop s')
  end.

Fixpoint all_chars (p : ascii → bool) (s : string) : bool :=
  match s with
  | "" => true
  | String a s' => p a && all_chars p s'
  end.

Definition between (lo hi : nat) (a : ascii) : bool :=
  let n := nat_of_ascii a in (lo <=? n) && (n <=? hi).

Definition is_alpha (a : ascii) : bool := between 65 90 a || between 97 122 a.

Definition is_scheme_char (a : ascii) : bool :=
  is_alpha a || between 48 57 a || contains a "+-.".

Definition lower_char (a : ascii) : ascii :=
  if between 65 90 a then ascii_of_nat (nat_of_ascii a + 32) else a.

Fixpoint lower (s : string) : string :=
  match s with
  | "" => ""
  | String a s' => String (lower_char a) (lower s')
  end.

(** The scheme is cut off when the text before the first colon is a
    letter followed by scheme characters. *)
Definition strip_scheme (url : string) : string :=
  match partition ":" url with
  | (String a _ as scheme, Some rest) =>
      if is_alpha a && all_chars is_scheme_char scheme then rest else url
  | _ => url
  end.

Definition netloc (url : string) : result string :=
  match strip_scheme url with
  | String "/" (String "/" rest) =>
      let netloc := take_until (λ a, contains a "/?#") rest in
      if xorb (contains "[" netloc) (contains "]" netloc)
      then Raise ValueError
      else Ok netloc
  | _ => Ok ""
  end.

Definition hostname_of_netloc (netloc : string) : option string :=
  let hostinfo := after_last "@" netloc in
  let hostname :=
    match partition "[" hostinfo with
    | (_, Some bracketed) => (partition "]" bracketed).1
    | (_, None) => (partition ":" hostinfo).1
    end in
  if decide (hostname = "") then None
  else
    match partition "%" hostname with
    | (name, Some zone) => Some (lower name +:+ "%" +:+ zone)
    | (name, None) => Some (lower name)
    end.

(** A value that is not a [str] is decoded as bytes: a falsy one becomes
    the empty URL, a truthy one has no [decode] method. *)
Definition falsy (v : json) : bool :=
  match v with
  | JNull | JBool false | JNum 0%Z | JArr [] => true
  | JObj m => bool_decide (m = ∅)
  | _ => false
  end.

Definition hostname (url : json) : result (option string) :=
  match url with
  | JStr s => n ← netloc s; mret (hostname_of_netloc n)
  | v => if falsy v then Ok None else Raise AttributeError
  end.

End cpython.

(** The characters of a host name written in lower case: letters, digits,
    hyphen and dot. *)
Definition host_char (a : ascii) : bool :=
  cpython.between 97 122 a || cpython.between 48 57 a || cpython.contains a "-.".

(** Distinct values with their counts, sorted by count. *)
Definition by_count_descending (x y : string * nat) : Prop := y.2 ≤ x.2.

#[export] Instance by_count_descending_dec : RelDecision by_count_descending.
Proof. intros x y. unfold by_count_descending. apply _. Defined.

Definition tally (l : list string) : list (string * nat) :=
  merge_sort by_count_descending ((λ h, (h, occurrences h l)) <$> remove_dups l).

(** ** Vocabulary of the properties *)

(** The member [key] of a JSON value: an object that has the key. *)
Definition member (v : json) (key : string) : option json :=
  match v with
  | JObj m => m !! key
  | _ => None
  end.

Definition is_object (v : json) : Prop :=
  match v with
  | JObj _ => True
  | _ => False
  end.

#[export] Instance is_object_dec v : Decision (is_object v).
Proof. destruct v; apply _. Defined.

(** The value at [results.results.organic], when every level is there. *)
Definition organic_member (body : json) : option json :=
  r ← member body "results"; i ← member r "results"; member i "organic".

(** One of [results], [results.results], [results.results.organic] is not
    there. *)
Definition level_missing (body : json) : Prop :=
  member body "results" = None ∨
  (r ← member body "results"; member r "results") = None ∨
  organic_member body = None.

(** Every level that is there holds a value of the expected kind: objects
    down to [organic], which is an array. *)
Definition object_or_absent (v : option json) : Prop :=
  match v with
  | None | Some (JObj _) => True
  | _ => False
  end.

Definition array_or_absent (v : option json) : Prop :=
  match v with
  | None | Some (JArr _) => True
  | _ => False
  end.

Definition levels_well_typed (body : json) : Prop :=
  is_object body ∧
  object_or_absent (member body "results") ∧
  object_or_absent (r ← member body "results"; member r "results") ∧
  array_or_absent (organic_member body).

Section vocabulary.
Context `{!Urllib}.

(** The host name an organic entry contributes: what the extractor gives
    for its [link] (the empty string when it has none), if that is
    truthy. *)
Definition entry_hostname (r : json) : option string :=
  match extract_hostname (default (JStr "") (member r "link")) with
  | Ok (Some h) => if decide (h = "") then None else Some h
  | _ => None
  end.

(** An entry without a [link], or whose link the extractor answers with
    [None]. *)
Definition no_host (r : json) : Prop :=
  is_object r ∧
  (member r "link" = None ∨
   ∃ v, member r "link" = Some v ∧ extract_hostname v = Ok None).

(** A call that succeeded for the orchestrator: status 200, a body that
    decodes and parses, and at least one host name. *)
Definition succeeded `{!Pandas} (o : http_outcome) (m : hostname_count) : Prop :=
  ∃ body, o = Response 200 (Ok body) ∧ parse_organic_results body = Ok m ∧ m ≠ [].
End vocabulary.

Definition counts_descending (rows : list row) : Prop :=
  Sorted (λ r r' : row, r'.2 ≤ r.2) rows.

(** The rows one mapping puts in the file. *)
Definition rows_of (search_term : string) (m : hostname_count) : list row :=
  (λ item, (search_term, item.1, item.2)) <$> m.

Definition notice_term (n : notice) : string :=
  match n with
  | FailedToProcess search_term => search_term
  | ErrorProcessing term _ => term
  end.

(** One call as the orchestrator accounts for it: the term, what the
    network did, the rows written for it and the notices shown for it. *)
Record call := {
  call_term : string;
  call_outcome : http_outcome;
  call_rows : list row;
  call_notices : list notice;
}.

(** A successful call writes the rows of its mapping and shows nothing;
    any other call writes nothing and shows one failure notice. *)
Inductive handled `{!Urllib, !Pandas} : call → Prop :=
  | handled_success t o m :
      succeeded o m →
      handled {| call_term := t; call_outcome := o;
                 call_rows := rows_of t m; call_notices := [] |}
  | handled_failure t o :
      (∀ m, ¬ succeeded o m) →
      handled {| call_term := t; call_outcome := o;
                 call_rows := []; call_notices := [FailedToProcess t] |}.

(** Moves left before [process_in_batches] returns: three for a queued
    term, two for a running one, one for a finished future. *)
Definition pending (st : state) : nat :=
  3 * length (st_queue st) + 2 * length (st_running st) + length (st_done st).

(** The bookkeeping of a run of [process_in_batches] over [search_terms]
    that found the files [fs]: [calls] are the calls the loop has handled
    so far, in the order it handled them. *)
Record invariant `{!Urllib, !Pandas} (output_csv : string)
    (search_terms : list string) (fs : filesystem)
    (st : state) (calls : list call) : Prop := {
  inv_handled : Forall handled calls;
  inv_yielded : st_yielded st = length calls;
  inv_rows :
    read_rows (st_fs st) output_csv =
    read_rows fs output_csv ++ (calls ≫= call_rows);
  inv_frame : ∀ name, name ≠ output_csv → st_fs st !! name = fs !! name;
  inv_notices : st_notices st = calls ≫= call_notices;
  inv_results :
    calls ≫= call_rows = st_results st ≫= λ r, rows_of r.1 r.2;
  inv_accounted :
    (st_results st).*1 ++ (notice_term <$> st_notices st) ≡ₚ call_term <$> calls;
  inv_done :
    Forall (λ f, ∃ o, fut_result f = call_api_try (fut_term f) o) (st_done st);
  inv_terms :
    st_queue st ++ st_running st ++ (fut_term <$> st_done st) ++
      (call_term <$> calls) ≡ₚ search_terms;
}.

(** The payload object once the terms [started] have gone through line 51
    one after the other: only the last assignment shows. *)
Definition payload_after_starts (payload : RequestPayload) (started : list string)
    : RequestPayload :=
  from_option (set_search_term payload) payload (last started).

(** More bookkeeping of a run: [started] are the terms taken off the queue
    so far, in order. *)
Record pool_invariant `{!Urllib, !Pandas} (api_url api_key output_csv : string)
    (batch_size : Z) (payload : RequestPayload) (search_terms : list string)
    (fs : filesystem) (st : state) (started : list string) : Prop := {
  pinv_started : started ++ st_queue st = search_terms;
  pinv_payload : st_payload st = payload_after_starts payload started;
  pinv_running : Forall (λ t, t ∈ started) (st_running st);
  pinv_bound : (Z.of_nat (length (st_running st)) ≤ Z.max 0 batch_size)%Z;
  pinv_wire :
    Forall (λ sent : string * Request,
              sent.1 ∈ started ∧
              ∃ t, t ∈ started ∧
                sent.2 = post_request api_url api_key (set_search_term payload t))
           (st_wire st);
  pinv_file :
    st_fs st !! output_csv = None ↔ fs !! output_csv = None ∧ st_results st = [];
  pinv_results : Forall (λ r : string * hostname_count, r.2 ≠ []) (st_results st);
  pinv_notices : Forall (λ n, ∃ t, n = FailedToProcess t) (st_notices st);
  pinv_done :
    Forall (λ f, ∃ o, fut_result f = call_api_try (fut_term f) o) (st_done st);
}.

(** With one worker: the payload holds the term of the running call. *)
Record single_worker_invariant (api_url api_key : string) (payload : RequestPayload)
    (st : state) : Prop := {
  sinv_running :
    st_running st = [] ∨
    ∃ t, st_running st = [t] ∧ st_payload st = set_search_term payload t;
  sinv_payload :
    st_payload st = payload ∨ ∃ t, st_payload st = set_search_term payload t;
  sinv_wire :
    Forall (λ sent : string * Request,
              sent.2 = post_request api_url api_key (set_search_term payload sent.1))
           (st_wire st);
}.

(** ** Sample values *)

(** The payload [main] builds from the form's defaults (lines 117-127). *)
Definition default_payload : RequestPayload :=
  {| data := {[ "domain" := "google.com"; "loc" := "Delhi,India"; "lang" := "en";
                "device" := "desktop"; "serp_type" := "web"; "page" := "1";
                "verbatim" := "0" ]} |}.

Definition default_api_url : string := "https://api.serphouse.com/serp/live".

(** A response body of the expected shape around an organic list. *)
Definition organic_body (organic : list json) : json :=
  JObj {[ "results" := JObj {[ "results" := JObj {[ "organic" := JArr organic ]} ]} ]}.

Definition entry (link : string) : json := JObj {[ "link" := JStr link ]}.

(** A batch of three terms on two workers.  The network answers the calls
    for the first two terms with results and fails the third. *)
Definition sample_terms : list string := ["alpha"; "beta"; "gamma"].

Definition alpha_response : http_outcome :=
  Response 200 (Ok (organic_body (entry <$>
    ["https://a.com/1"; "https://a.com/2"; "https://b.com/"]))).

Definition beta_response : http_outcome :=
  Response 200 (Ok (organic_body (entry <$> ["https://c.com/"]))).

(** beta completes first; gamma starts while alpha has not posted yet. *)
Definition sample_schedule : list label :=
  [Start; Start; Post 1 beta_response; Yield 0; Start; Post 0 alpha_response;
   Post 0 (TransportFailure ConnectionError); Yield 1; Yield 0].

(** The same answers with alpha completing first. *)
Definition sample_schedule' : list label :=
  [Start; Post 0 alpha_response; Start; Start; Yield 0; Post 1 (Response 500 (Ok JNull));
   Yield 0; Post 0 beta_response; Yield 0].

(** The same batch on a single worker, one call after the other. *)
Definition sample_schedule_one : list label :=
  [Start; Post 0 alpha_response; Yield 0; Start; Post 0 beta_response; Yield 0;
   Start; Post 0 (TransportFailure Timeout); Yield 0].


(** The form with its defaults, a key, the smallest pool and an uploaded
    file holding the three terms. *)
Definition sample_form : form :=
  {| in_api_url := default_api_url; in_api_key := "key";
     in_domain := "google.com"; in_loc := "Delhi,India"; in_lang := "en";
     in_device := "desktop"; in_serp_type := "web"; in_page := "1";
     in_num_results := "10"; in_verbatim := "0"; in_batch_size := 10;
     in_submit_params := false;
     in_input_csv := Some (Ok {[ "search_terms" := sample_terms ]});
     in_output_csv := "output.csv"; in_start := true |}.

(** * Properties *)

(** ** The reference instances meet the library interfaces *)

Lemma tally_Permutation (l : list string) :
  tally l ≡ₚ (λ h, (h, occurrences h l)) <$> remove_dups l.
Proof. apply merge_sort_Permutation. Qed.

Lemma tally_NoDup (l : list string) : NoDup (tally l).*1.
Proof.
  rewrite tally_Permutation, <-list_fmap_compose.
  assert (Hid : ∀ k : list string, (fst ∘ λ h, (h, occurrences h l)) <$> k = k)
    by (induction k; csimpl; by f_equal).
  rewrite Hid. apply NoDup_remove_dups.
Qed.

Lemma tally_elem (l : list string) (h : string) (c : nat) :
  (h, c) ∈ tally l ↔ h ∈ l ∧ c = occurrences h l.
Proof.
  rewrite tally_Permutation, list_elem_of_fmap. split.
  - intros (h' & Heq & Hin). simplify_eq. by rewrite elem_of_remove_dups in Hin.
  - intros [Hin ->]. exists h. by rewrite elem_of_remove_dups.
Qed.

#[export] Instance by_count_descending_total : Total by_count_descending.
Proof. intros x y. unfold by_count_descending. lia. Qed.

Lemma tally_descending (l : list string) :
  Sorted (λ x y : string * nat, y.2 ≤ x.2) (tally l).
Proof. apply (Sorted_merge_sort by_count_descending). Qed.

#[export] Instance pandas_tally : Pandas :=
  {| value_counts := tally;
     value_counts_NoDup := tally_NoDup;
     value_counts_elem := tally_elem;
     value_counts_descending := tally_descending |}.

#[export] Instance urllib_cpython : Urllib :=
  {| urlparse_hostname := cpython.hostname;
     urlparse_hostname_empty := eq_refl |}.

(** ** The hostname extractor and the result parser *)

Section parser_properties.
Context `{!Urllib, !Pandas}.

Lemma extract_hostname_Ok (url : json) : ∃ v, extract_hostname url = Ok v.
Proof. unfold extract_hostname. destruct (urlparse_hostname url); simpl; eauto. Qed.

(** C7: the Hostname Extractor never raises.  Given a string, it returns
    exactly the host that URL parsing finds in it, and the absence marker
    when parsing finds no host or fails, as it does for the empty
    string. *)
Theorem extract_hostname_total (url : string) :
  ∃ v, extract_hostname (JStr url) = Ok v ∧
    (∀ h, urlparse_hostname (JStr url) = Ok (Some h) → v = Some h) ∧
    (urlparse_hostname (JStr url) = Ok None → v = None) ∧
    (raises (urlparse_hostname (JStr url)) → v = None) ∧
    (url = "" → v = None).
Proof.
  unfold extract_hostname.
  destruct (urlparse_hostname (JStr url)) as [v|e] eqn:Hparse; simpl.
  - exists v. repeat split; try congruence.
    + by intros [e ?].
    + intros ->. rewrite urlparse_hostname_empty in Hparse. congruence.
  - exists None. repeat split; congruence.
Qed.

Lemma py_get_object (r : json) (key : string) (dflt : json) :
  is_object r → py_get r key dflt = Ok (default dflt (member r key)).
Proof. by destruct r. Qed.

Lemma append_if_truthy_entry (links : list string) (r : json) :
  is_object r →
  ∃ hostname, extract_hostname (default (JStr "") (member r "link")) = Ok hostname ∧
    append_if_truthy links hostname = links ++ option_list (entry_hostname r).
Proof.
  intros _. unfold entry_hostname.
  destruct (extract_hostname_Ok (default (JStr "") (member r "link"))) as [v ->].
  exists v. split; [done|]. destruct v as [h|]; simpl.
  - case_decide; simpl; by rewrite ?app_nil_r.
  - by rewrite app_nil_r.
Qed.

(** The loop over entries that are objects: the truthy host names, in
    order, after what was there. *)
Lemma collect_links_objects (top_10 : list json) (links : list string) :
  Forall is_object top_10 →
  collect_links top_10 links = Ok (links ++ omap entry_hostname top_10).
Proof.
  intros Hobj. revert links.
  induction Hobj as [|r rest Hr _ IH]; intros links; simpl.
  - by rewrite app_nil_r.
  - rewrite (py_get_object r) by done. simpl.
    destruct (append_if_truthy_entry links r Hr) as (hostname & -> & Happ).
    simpl. rewrite Happ, IH. f_equal. rewrite <-app_assoc. f_equal.
    by destruct (entry_hostname r).
Qed.

(** The loop stops at the first entry that is not an object. *)
Lemma collect_links_not_object (top_10 : list json) (links : list string) :
  ¬ Forall is_object top_10 → collect_links top_10 links = Raise AttributeError.
Proof.
  revert links. induction top_10 as [|r rest IH]; intros links Hnot; simpl.
  - destruct Hnot. constructor.
  - destruct (decide (is_object r)) as [Hr|Hr].
    + rewrite (py_get_object r) by done. simpl.
      destruct (append_if_truthy_entry links r Hr) as (hostname & -> & _). simpl.
      apply IH. intros Hrest. apply Hnot. by constructor.
    + by destruct r.
Qed.

Lemma value_counts_nil : value_counts [] = [].
Proof.
  destruct (value_counts []) as [|[h c] rest] eqn:Hvc; [done|].
  assert ((h, c) ∈ value_counts []) as Hin by (rewrite Hvc; left).
  apply value_counts_elem in Hin as [Hin _]. by apply elem_of_nil in Hin.
Qed.

(** The dict read at a key. *)
Lemma value_counts_lookup (links : list string) (h : string) :
  (list_to_map (value_counts links) : gmap string nat) !! h =
  if decide (h ∈ links) then Some (occurrences h links) else None.
Proof.
  case_decide as Hin.
  - apply elem_of_list_to_map; [apply value_counts_NoDup|].
    by apply value_counts_elem.
  - apply not_elem_of_list_to_map. intros Hdom.
    apply list_elem_of_fmap in Hdom as ([h' c] & -> & Hpair).
    by apply value_counts_elem in Hpair as [? _].
Qed.

Lemma parse_organic_results_array (body : json) (l : list json) :
  organic_results body = Ok (JArr l) →
  parse_organic_results body =
    links ← collect_links (take 10 l) []; mret (value_counts links).
Proof. intros Horg. unfold parse_organic_results. by rewrite Horg. Qed.

Lemma no_host_entry (r : json) : no_host r → entry_hostname r = None.
Proof.
  intros [_ [Hlink|(v & Hlink & Hv)]]; unfold entry_hostname; rewrite Hlink; simpl.
  - unfold extract_hostname. by rewrite urlparse_hostname_empty.
  - by rewrite Hv.
Qed.

Lemma no_host_links (l : list json) : Forall no_host l → omap entry_hostname l = [].
Proof.
  induction 1 as [|r l Hr _ IH]; [done|].
  simpl. by rewrite (no_host_entry r Hr).
Qed.

Lemma occurrences_zero (h : string) (l : list string) :
  occurrences h l = 0 ↔ h ∉ l.
Proof.
  unfold occurrences. rewrite length_zero_iff_nil. split.
  - intros Hnil Hin. assert (h ∈ filter (h =.) l) as Hf by by apply list_elem_of_filter.
    rewrite Hnil in Hf. by apply elem_of_nil in Hf.
  - intros Hnot. apply elem_of_nil_inv. intros x Hx.
    apply list_elem_of_filter in Hx as [<- ?]. done.
Qed.

(** C4: the parser looks at the first ten elements of the organic list
    and at nothing past them: two bodies whose organic lists agree on
    their first ten elements get the same answer.  An entry without a
    host name keeps its place among the ten: when none of the first ten
    has one, the mapping is empty, whatever follows them. *)
Theorem parse_organic_results_top_10 (body body' : json) (l l' : list json) :
  organic_results body = Ok (JArr l) →
  organic_results body' = Ok (JArr l') →
  take 10 l = take 10 l' →
  parse_organic_results body = parse_organic_results body' ∧
  (Forall no_host (take 10 l) → parse_organic_results body = Ok []).
Proof.
  intros Hl Hl' Htake.
  rewrite (parse_organic_results_array body l Hl).
  rewrite (parse_organic_results_array body' l' Hl'), Htake.
  split; [done|]. rewrite <-Htake. intros Hno.
  rewrite collect_links_objects by (eapply Forall_impl; [done|by intros ? []]).
  simpl. by rewrite no_host_links, value_counts_nil.
Qed.

(** C5: over entries that are objects, the mapping has one key per
    distinct host name among the first ten entries and maps it to the
    number of those entries that have it; host names
    [a,a,a,b,b,c,c,c,c,d] give [{a:3, b:2, c:4, d:1}]. *)
Theorem parse_organic_results_counts (body : json) (l : list json) :
  organic_results body = Ok (JArr l) →
  Forall is_object (take 10 l) →
  ∃ m, parse_organic_results body = Ok m ∧ NoDup m.*1 ∧
    (∀ h, (list_to_map m : gmap string nat) !! h =
          let n := occurrences h (omap entry_hostname (take 10 l)) in
          if decide (n = 0) then None else Some n) ∧
    (∀ a b c d, NoDup [a; b; c; d] →
       omap entry_hostname (take 10 l) = [a; a; a; b; b; c; c; c; c; d] →
       list_to_map m = ({[a := 3; b := 2; c := 4; d := 1]} : gmap string nat)).
Proof.
  intros Hl Hobj. rewrite (parse_organic_results_array body l Hl).
  rewrite collect_links_objects by done. simpl.
  set (links := omap entry_hostname (take 10 l)).
  assert (Hlookup : ∀ h, (list_to_map (value_counts links) : gmap string nat) !! h =
            if decide (occurrences h links = 0) then None
            else Some (occurrences h links)).
  { intros h. rewrite value_counts_lookup.
    pose proof (occurrences_zero h links) as Hzero.
    repeat case_decide; (done || tauto). }
  eexists. split; [done|]. split; [apply value_counts_NoDup|]. split; [done|].
  intros a b c d Hnd Hlinks. apply map_eq. intros h. rewrite Hlookup, Hlinks.
  assert (a ≠ b ∧ a ≠ c ∧ a ≠ d ∧ b ≠ c ∧ b ≠ d ∧ c ≠ d) as Hne
    by (rewrite !NoDup_cons, !not_elem_of_cons in Hnd; tauto).
  destruct Hne as (? & ? & ? & ? & ? & ?).
  unfold occurrences.
  destruct (decide (h = a)) as [->|?]; [|destruct (decide (h = b)) as [->|?];
    [|destruct (decide (h = c)) as [->|?]; [|destruct (decide (h = d)) as [->|?]]]];
    rewrite ?filter_cons, ?filter_nil; repeat case_decide; simplify_eq; simpl;
    simplify_map_eq; done.
Qed.

Lemma organic_results_well_typed (body : json) :
  levels_well_typed body →
  organic_results body =
    Ok (JArr match organic_member body with Some (JArr l) => l | _ => [] end).
Proof.
  destruct body as [| | | | |m]; try by intros [[] _].
  unfold levels_well_typed, organic_member, organic_results. simpl.
  destruct (m !! "results") as [[| | | | |m1]|]; simpl; try tauto.
  destruct (m1 !! "results") as [[| | | | |m2]|]; simpl; try tauto.
  destruct (m2 !! "organic") as [[]|]; simpl; tauto.
Qed.

(** C6, as amended: on a body whose levels, where present, hold objects
    down to an array at [organic], the parser returns the empty mapping
    without raising when a level is missing, and when every organic
    entry lacks a [link] or has a link without a host name. *)
Theorem parse_organic_results_empty (body : json) :
  levels_well_typed body →
  level_missing body ∨
    (∃ l, organic_member body = Some (JArr l) ∧ Forall no_host l) →
  parse_organic_results body = Ok [].
Proof.
  intros Hty Hcase.
  pose proof (organic_results_well_typed body Hty) as Horg.
  rewrite (parse_organic_results_array _ _ Horg).
  assert (Forall no_host
            match organic_member body with Some (JArr l) => l | _ => [] end) as Hno.
  { destruct Hcase as [Hmiss|(l & -> & Hl)]; [|done].
    assert (organic_member body = None) as ->; [|done].
    destruct Hmiss as [Hmiss|[Hmiss|Hmiss]]; [| |done]; unfold organic_member.
    - by rewrite Hmiss.
    - destruct (member body "results"); simpl in *; [by rewrite Hmiss|done]. }
  rewrite collect_links_objects
    by (apply Forall_take; eapply Forall_impl; [done|by intros ? []]).
  simpl. by rewrite no_host_links, value_counts_nil by by apply Forall_take.
Qed.

(** C3: [call_api] always returns, and what it returns is the given
    term paired with the parser's mapping when the response is a 200
    whose body decodes and parses, and with [None] on any other status,
    on a transport failure, on a body that does not decode and on one
    the parser raises on. *)
Theorem call_api_returns (api_url api_key : string) (payload : RequestPayload)
    (search_term : string) (network : Request → http_outcome) :
  let call := call_api api_url api_key payload search_term network in
  ∃ r, returned call = Ok (search_term, r) ∧
    (∀ body m, network (request_sent call) = Response 200 (Ok body) →
       parse_organic_results body = Ok m → r = Some m) ∧
    (∀ status_code body, network (request_sent call) = Response status_code body →
       status_code ≠ 200%Z → r = None) ∧
    (∀ e, network (request_sent call) = TransportFailure e → r = None) ∧
    (∀ status_code e, network (request_sent call) = Response status_code (Raise e) →
       r = None) ∧
    (∀ body, network (request_sent call) = Response 200 (Ok body) →
       raises (parse_organic_results body) → r = None).
Proof.
  simpl. unfold call_api_try.
  destruct (network _) as [e|status_code body]; simpl.
  { exists None. repeat split; congruence. }
  case_decide as Hstatus; simpl; [|exists None; repeat split; congruence].
  destruct body as [body|e]; simpl; [|exists None; repeat split; congruence].
  destruct (parse_organic_results body) as [m|e] eqn:Hparse; simpl.
  - exists (Some m). repeat split; try congruence.
    intros body' Hbody [e He]. congruence.
  - exists None. repeat split; congruence.
Qed.

End parser_properties.

(** ** The parser on sample bodies *)

Example extract_hostname_url :
  extract_hostname (JStr "https://www.example.com/search?q=1") = Ok (Some "www.example.com").
Proof. reflexivity. Qed.

Example extract_hostname_no_host :
  extract_hostname (JStr "") = Ok None ∧
  extract_hostname (JStr "/relative/path") = Ok None ∧
  extract_hostname (JStr "http://[::1/") = Ok None ∧
  extract_hostname (JNum 7) = Ok None.
Proof. repeat split; reflexivity. Qed.

Example parse_fifteen :
  parse_organic_results
    (organic_body (entry <$> ["https://a.com/1"; "https://a.com/2"; "https://b.com/";
       "nothing"; "https://a.com/3"; "https://c.com/"; "https://b.com/x"; "";
       "https://b.com/y"; "https://a.com/4"; "https://z.com/"; "https://z.com/";
       "https://z.com/"; "https://z.com/"; "https://z.com/"]))
  = Ok [("a.com", 4); ("b.com", 3); ("c.com", 1)].
Proof. vm_compute. reflexivity. Qed.

(** Proves [Forall P l] on an explicit list, [tac] proving [P] of each
    element. *)
Ltac each_entry tac :=
  simpl; repeat (apply List.Forall_cons; [tac|]); apply List.Forall_nil.

Lemma parse_organic_results_top_10_witness :
  let l := replicate 10 (entry "no host here") ++ [entry "https://example.com/"] in
  parse_organic_results (organic_body l) = parse_organic_results (organic_body (take 10 l)) ∧
  parse_organic_results (organic_body l) = Ok [].
Proof.
  intros l.
  destruct (parse_organic_results_top_10 (organic_body l) (organic_body (take 10 l))
              l (take 10 l)) as [Hsame Hempty]; [reflexivity..|].
  split; [exact Hsame|]. apply Hempty.
  each_entry ltac:(split; [exact I|right; eexists; split; reflexivity]).
Defined.

Lemma parse_organic_results_counts_witness :
  ∃ m, parse_organic_results
         (organic_body (entry <$> ["https://a.com/1"; "https://a.com/2"; "https://a.com/3";
            "https://b.com/1"; "https://b.com/2"; "https://c.com/1"; "https://c.com/2";
            "https://c.com/3"; "https://c.com/4"; "https://d.com/1"])) = Ok m ∧
       list_to_map m =
         ({[ "a.com" := 3; "b.com" := 2; "c.com" := 4; "d.com" := 1 ]} : gmap string nat).
Proof.
  destruct (parse_organic_results_counts
              (organic_body (entry <$> ["https://a.com/1"; "https://a.com/2";
                 "https://a.com/3"; "https://b.com/1"; "https://b.com/2"; "https://c.com/1";
                 "https://c.com/2"; "https://c.com/3"; "https://c.com/4"; "https://d.com/1"]))
              _ eq_refl) as (m & Hm & _ & _ & Hexample).
  - each_entry ltac:(exact I).
  - exists m. split; [exact Hm|]. apply Hexample; [|reflexivity].
    apply (bool_decide_unpack _). vm_compute. exact I.
Defined.

(** C6, as stated, fails: with [null] at [results] the level
    [results.results] is missing, and the parser raises. *)
Lemma parse_organic_results_null_level :
  let body := JObj {[ "results" := JNull ]} in
  level_missing body ∧ parse_organic_results body = Raise AttributeError.
Proof. split; [right; left|]; reflexivity. Qed.

Example parse_organic_results_other_shapes :
  parse_organic_results (JArr []) = Raise AttributeError ∧
  parse_organic_results (organic_body [JStr "https://a.com/"]) = Raise AttributeError ∧
  parse_organic_results (JObj {[ "results" := JObj {[ "results" := JArr [] ]} ]})
    = Raise AttributeError.
Proof. repeat split; reflexivity. Qed.

Lemma parse_organic_results_empty_witness :
  parse_organic_results (JObj {[ "results" := JObj ∅ ]}) = Ok [] ∧
  parse_organic_results (organic_body [JObj ∅; entry "mailto:someone"]) = Ok [].
Proof.
  split.
  - apply parse_organic_results_empty.
    + by vm_compute.
    + left. right. left. reflexivity.
  - apply parse_organic_results_empty.
    + by vm_compute.
    + right. eexists. split; [reflexivity|].
      each_entry ltac:(split; [exact I|];
        first [left; reflexivity | right; eexists; split; reflexivity]).
Defined.

Example call_api_simulated (term : string) :
  returned (call_api default_api_url "key" default_payload term
              (λ _, Response 200 (Ok (organic_body [entry "https://a.com/"]))))
    = Ok (term, Some [("a.com", 1)]) ∧
  returned (call_api default_api_url "key" default_payload term
              (λ _, Response 500 (Ok JNull))) = Ok (term, None) ∧
  returned (call_api default_api_url "key" default_payload term
              (λ _, TransportFailure ConnectionError)) = Ok (term, None) ∧
  returned (call_api default_api_url "key" default_payload term
              (λ _, Response 200 (Raise JSONDecodeError))) = Ok (term, None) ∧
  returned (call_api default_api_url "key" default_payload term
              (λ _, Response 200 (Ok (JArr [])))) = Ok (term, None).
Proof. repeat split; reflexivity. Qed.

(** ** The reference URL parser on well-formed URLs *)

Lemma contains_all_chars (p : ascii → bool) (c : ascii) (s : string) :
  p c = false → cpython.all_chars p s = true → cpython.contains c s = false.
Proof.
  intros Hc. induction s as [|a s IH]; simpl; [done|].
  intros [Ha Hs]%andb_true_iff. rewrite (IH Hs), orb_false_r.
  apply bool_decide_eq_false. intros ->. congruence.
Qed.

Lemma partition_absent (c : ascii) (s : string) :
  cpython.contains c s = false → cpython.partition c s = (s, None).
Proof.
  induction s as [|a s IH]; simpl; [done|].
  intros [Ha Hs]%orb_false_iff. apply bool_decide_eq_false in Ha.
  case_decide; [done|]. by rewrite (IH Hs).
Qed.

Lemma partition_first (c : ascii) (s rest : string) :
  cpython.contains c s = false →
  cpython.partition c (s +:+ String c rest) = (s, Some rest).
Proof.
  induction s as [|a s IH]; simpl.
  - intros _. by case_decide.
  - intros [Ha Hs]%orb_false_iff. apply bool_decide_eq_false in Ha.
    case_decide; [done|]. by rewrite (IH Hs).
Qed.

Lemma after_last_absent (c : ascii) (s : string) :
  cpython.contains c s = false → cpython.after_last c s = s.
Proof.
  destruct s as [|a s]; simpl; [done|].
  intros [Ha Hs]%orb_false_iff. apply bool_decide_eq_false in Ha.
  rewrite Hs. by case_decide.
Qed.

Lemma take_until_stop (stop : ascii → bool) (s rest : string) :
  cpython.all_chars (λ a, negb (stop a)) s = true →
  cpython.take_until stop rest = "" →
  cpython.take_until stop (s +:+ rest) = s.
Proof.
  intros Hs Hrest. induction s as [|a s IH]; simpl in *; [done|].
  apply andb_true_iff in Hs as [Ha Hs]. apply negb_true_iff in Ha.
  by rewrite Ha, (IH Hs).
Qed.

Lemma all_chars_impl (p q : ascii → bool) (s : string) :
  (∀ a, p a = true → q a = true) →
  cpython.all_chars p s = true → cpython.all_chars q s = true.
Proof.
  intros Hpq. induction s as [|a s IH]; simpl; [done|].
  intros [Ha Hs]%andb_true_iff. by rewrite (Hpq a Ha), (IH Hs).
Qed.

Lemma lower_host (s : string) :
  cpython.all_chars host_char s = true → cpython.lower s = s.
Proof.
  induction s as [|a s IH]; simpl; [done|].
  intros [Ha Hs]%andb_true_iff. rewrite (IH Hs). f_equal.
  revert Ha. destruct a as [[] [] [] [] [] [] [] []]; by vm_compute.
Qed.

(** No host character is a delimiter of the URL syntax. *)
Lemma host_char_plain (c : ascii) :
  host_char c = true → cpython.contains c "/?#[]@:%" = false.
Proof. destruct c as [[] [] [] [] [] [] [] []]; by vm_compute. Qed.

(** On a URL made of a scheme, [://], a host name in lower case and
    nothing or a path, query or fragment, the reference parser finds
    exactly the host name. *)
Lemma cpython_hostname_well_formed (a : ascii) (scheme host rest : string) :
  cpython.is_alpha a = true →
  cpython.all_chars cpython.is_scheme_char scheme = true →
  host ≠ "" → cpython.all_chars host_char host = true →
  cpython.take_until (λ c, cpython.contains c "/?#") rest = "" →
  cpython.hostname (JStr (String a scheme +:+ "://" +:+ host +:+ rest))
    = Ok (Some host).
Proof.
  intros Ha Hscheme Hhost Hchars Hrest.
  assert (Hno : ∀ c, cpython.contains c "/?#[]@:%" = true →
                     cpython.contains c host = false).
  { intros c Hc. apply (contains_all_chars host_char); [|done].
    destruct (host_char c) eqn:Hhc; [|done].
    rewrite (host_char_plain c Hhc) in Hc. done. }
  unfold cpython.hostname, cpython.netloc, cpython.strip_scheme.
  change (String a scheme +:+ "://" +:+ host +:+ rest)
    with (String a scheme +:+ String ":" ("//" +:+ host +:+ rest)).
  rewrite partition_first.
  2:{ simpl. rewrite (contains_all_chars cpython.is_scheme_char) by done.
      rewrite orb_false_r. apply bool_decide_eq_false. intros ->. done. }
  simpl cpython.all_chars.
  assert (cpython.is_scheme_char a = true) as ->
    by (unfold cpython.is_scheme_char; by rewrite Ha).
  rewrite Ha, Hscheme. simpl.
  rewrite (take_until_stop _ host rest); [|apply (all_chars_impl host_char); [|done]|done].
  2:{ intros c. destruct c as [[] [] [] [] [] [] [] []]; by vm_compute. }
  rewrite !Hno by done. simpl.
  unfold cpython.hostname_of_netloc.
  rewrite after_last_absent by by apply Hno.
  rewrite (partition_absent "[" host) by by apply Hno.
  rewrite (partition_absent ":" host) by by apply Hno.
  simpl. case_decide; [done|].
  rewrite (partition_absent "%" host) by by apply Hno.
  by rewrite lower_host.
Qed.

(** So does [extract_hostname] run on the reference parser. *)
Corollary extract_hostname_well_formed (a : ascii) (scheme host rest : string) :
  cpython.is_alpha a = true →
  cpython.all_chars cpython.is_scheme_char scheme = true →
  host ≠ "" → cpython.all_chars host_char host = true →
  cpython.take_until (λ c, cpython.contains c "/?#") rest = "" →
  extract_hostname (JStr (String a scheme +:+ "://" +:+ host +:+ rest))
    = Ok (Some host).
Proof.
  intros. unfold extract_hostname, urlparse_hostname, urllib_cpython.
  by rewrite cpython_hostname_well_formed.
Qed.

(** ** The batch orchestrator *)

Section batch_properties.
Context `{!Urllib, !Pandas}.
Variables (api_url api_key output_csv : string) (batch_size : Z).

Abbreviation step := (step api_url api_key output_csv batch_size).
Abbreviation exec := (exec api_url api_key output_csv batch_size).
Abbreviation handle_future := (handle_future output_csv).

Lemma read_rows_append (fs : filesystem) (m : hostname_count) (t : string) :
  read_rows (append_to_csv fs output_csv m t) output_csv =
  read_rows fs output_csv ++ rows_of t m.
Proof. unfold append_to_csv, read_rows at 1. by rewrite lookup_insert_eq. Qed.

Lemma lookup_append_other (fs : filesystem) (m : hostname_count) (t name : string) :
  name ≠ output_csv → append_to_csv fs output_csv m t !! name = fs !! name.
Proof. intros Hne. unfold append_to_csv. by rewrite lookup_insert_ne. Qed.

(** What a call returns, by whether it succeeded. *)
Lemma call_api_try_cases (t : string) (o : http_outcome) :
  (∃ m, succeeded o m ∧ call_api_try t o = Ok (t, Some m)) ∨
  ((∀ m, ¬ succeeded o m) ∧
   (call_api_try t o = Ok (t, None) ∨ call_api_try t o = Ok (t, Some []))).
Proof.
  unfold call_api_try, succeeded.
  destruct o as [e|status_code [body|e]]; simpl.
  - right. split; [intros m (? & ? & _); congruence|by left].
  - case_decide as Hstatus; simpl.
    + subst. destruct (parse_organic_results body) as [[|item m]|e] eqn:Hparse; simpl.
      * right. split; [|by right].
        intros m (body' & Hbody & Hm & Hne). congruence.
      * left. eexists. split; [|done]. by exists body.
      * right. split; [|by left].
        intros m (body' & Hbody & Hm & _). congruence.
    + right. split; [intros m (? & ? & _); congruence|by left].
  - right. split; [intros m (? & ? & _); congruence|].
    left. by case_decide.
Qed.

Lemma call_api_try_Ok (t : string) (o : http_outcome) :
  ∃ r, call_api_try t o = Ok (t, r).
Proof.
  destruct (call_api_try_cases t o) as [(m & _ & ->)|[_ [->| ->]]]; eauto.
Qed.

(** One pass of the loop body over a future of [call_api]. *)
Lemma handle_future_call (t : string) (o : http_outcome) (st : state) :
  ∃ c, handled c ∧ call_term c = t ∧ call_outcome c = o ∧
    let st' := handle_future {| fut_term := t; fut_result := call_api_try t o |} st in
    st_payload st' = st_payload st ∧ st_queue st' = st_queue st ∧
    st_running st' = st_running st ∧ st_done st' = st_done st ∧
    st_yielded st' = st_yielded st ∧ st_wire st' = st_wire st ∧
    read_rows (st_fs st') output_csv = read_rows (st_fs st) output_csv ++ call_rows c ∧
    (∀ name, name ≠ output_csv → st_fs st' !! name = st_fs st !! name) ∧
    st_notices st' = st_notices st ++ call_notices c ∧
    ((st_results st' = st_results st ∧ call_rows c = [] ∧
      call_notices c = [FailedToProcess t]) ∨
     ∃ m, st_results st' = st_results st ++ [(t, m)] ∧ call_rows c = rows_of t m ∧
          call_notices c = []).
Proof.
  unfold handle_future. simpl.
  destruct (call_api_try_cases t o) as [(m & Hs & ->)|[Hf Hres]].
  - exists {| call_term := t; call_outcome := o;
              call_rows := rows_of t m; call_notices := [] |}.
    split; [by constructor|]. do 2 (split; [done|]).
    destruct Hs as (body & _ & _ & Hne). destruct m as [|item m]; [done|]. simpl.
    repeat split; try done.
    + apply read_rows_append.
    + intros name Hname. by apply lookup_append_other.
    + by rewrite app_nil_r.
    + right. by eexists.
  - exists {| call_term := t; call_outcome := o;
              call_rows := []; call_notices := [FailedToProcess t] |}.
    split; [by constructor|]. do 2 (split; [done|]).
    destruct Hres as [-> | ->]; simpl; repeat split; try done;
      try (by rewrite app_nil_r); by left.
Qed.

Section run.
Variables (search_terms : list string) (fs : filesystem).

Abbreviation invariant := (invariant output_csv search_terms fs).

Lemma submitted_invariant (payload : RequestPayload) :
  invariant (submitted payload search_terms fs) [].
Proof.
  constructor; simpl; try done.
  - by rewrite app_nil_r.
  - by rewrite app_nil_r.
Qed.

Lemma step_invariant (l : label) (st st' : state) (calls : list call) :
  step l st = Some st' → invariant st calls →
  ∃ calls', invariant st' calls'.
Proof.
  intros Hstep [Hh Hy Hrows Hframe Hnot Hres Hacc Hdone Hterms].
  destruct l as [|i o|i]; simpl in Hstep.
  - destruct (st_queue st) as [|term queue] eqn:Hq; [done|].
    case_decide; [|done]. simplify_eq. exists calls.
    constructor; simpl; try done.
    rewrite <-Hterms, <-!app_assoc. simpl. by rewrite <-!Permutation_middle.
  - destruct (st_running st !! i) as [term|] eqn:Hi; [|done]. simpl in Hstep.
    simplify_eq. exists calls. constructor; simpl; try done.
    + apply Forall_app. split; [done|]. constructor; [|done]. by exists o.
    + rewrite <-Hterms. apply delete_Permutation in Hi.
      generalize dependent (delete i (st_running st)). intros running' Hi.
      rewrite Hi, fmap_app, <-!app_assoc. simpl.
      by rewrite <-!Permutation_middle.
  - destruct (st_done st !! i) as [f|] eqn:Hi; [|done]. simpl in Hstep.
    simplify_eq.
    assert (∃ o, fut_result f = call_api_try (fut_term f) o) as [o Ho].
    { eapply Forall_forall in Hdone; [done|]. by eapply list_elem_of_lookup_2. }
    destruct f as [t r]. simpl in Ho. subst r.
    match goal with |- context [handle_future _ ?s] =>
      destruct (handle_future_call t o s)
        as (c & Hc & Hct & Hco & Hp & Hq & Hr & Hd & Hyi & Hw & Hfs & Hfr & Hn & Hcase)
    end.
    simpl in *. exists (calls ++ [c]).
    constructor; rewrite ?fmap_app, ?bind_app; simpl; rewrite ?app_nil_r.
    + apply Forall_app. split; [done|]. by constructor.
    + rewrite Hyi, length_app, Hy. simpl. lia.
    + by rewrite Hfs, Hrows, app_assoc.
    + intros name Hname. by rewrite Hfr, Hframe.
    + by rewrite Hn, Hnot.
    + destruct Hcase as [(-> & -> & _)|(m & -> & -> & _)].
      * by rewrite app_nil_r.
      * rewrite bind_app. simpl. by rewrite app_nil_r, Hres.
    + rewrite Hn, fmap_app, Hct, <-Hacc.
      destruct Hcase as [(-> & _ & ->)|(m & -> & _ & ->)]; simpl.
      * by rewrite app_assoc.
      * rewrite fmap_app, app_nil_r, <-!app_assoc. simpl.
        by rewrite <-!Permutation_middle, app_nil_r.
    + rewrite Hd. rewrite delete_take_drop. apply Forall_app.
      split; [by apply Forall_take|by apply Forall_drop].
    + rewrite Hq, Hr, Hd, Hct, <-Hterms.
      pose proof (fmap_Permutation fut_term _ _ (delete_Permutation _ _ _ Hi)) as Hperm.
      rewrite Hperm. csimpl. rewrite <-!Permutation_middle.
      by rewrite app_nil_r.
Qed.

Lemma exec_invariant (ls : list label) (st st' : state) (calls : list call) :
  exec ls st = Some st' → invariant st calls → ∃ calls', invariant st' calls'.
Proof.
  revert st calls. induction ls as [|l ls IH]; intros st calls Hexec Hinv; simpl in Hexec.
  - simplify_eq. eauto.
  - destruct (step l st) as [st1|] eqn:Hstep; [|done]. simpl in Hexec.
    destruct (step_invariant l st st1 calls Hstep Hinv) as [calls1 Hinv1]. eauto.
Qed.

(** Every move uses up one unit of pending work. *)
Lemma step_pending (l : label) (st st' : state) :
  step l st = Some st' → pending st = S (pending st').
Proof.
  intros Hstep. destruct l as [|i o|i]; simpl in Hstep.
  - destruct (st_queue st) as [|term queue] eqn:Hq; [done|].
    case_decide; [|done]. simplify_eq. unfold pending. simpl.
    rewrite Hq, length_app. simpl. lia.
  - destruct (st_running st !! i) as [term|] eqn:Hi; [|done]. simpl in Hstep.
    simplify_eq. unfold pending. simpl.
    pose proof (lookup_lt_Some _ _ _ Hi) as Hlt.
    rewrite length_delete, length_app by by eexists.
    simpl. lia.
  - destruct (st_done st !! i) as [f|] eqn:Hi; [|done]. simpl in Hstep.
    simplify_eq. unfold pending, handle_future.
    pose proof (lookup_lt_Some _ _ _ Hi) as Hlt.
    assert (length (delete i (st_done st)) = length (st_done st) - 1) as Hlen
      by (apply length_delete; by eexists).
    destruct (fut_result f) as [[t [[|item m]|]]|e]; simpl; lia.
Qed.

Lemma exec_pending (ls : list label) (st st' : state) :
  exec ls st = Some st' → pending st = length ls + pending st'.
Proof.
  revert st. induction ls as [|l ls IH]; intros st Hexec; simpl in Hexec.
  - by simplify_eq.
  - destruct (step l st) as [st1|] eqn:Hstep; [|done]. simpl in Hexec.
    rewrite (step_pending _ _ _ Hstep), (IH _ Hexec). simpl. lia.
Qed.

Lemma invariant_count (st : state) (calls : list call) :
  invariant st calls →
  length (st_queue st) + length (st_running st) + length (st_done st) +
    st_yielded st = length search_terms.
Proof.
  intros Hinv. rewrite <-(Permutation_length (inv_terms _ _ _ _ _ Hinv)).
  rewrite (inv_yielded _ _ _ _ _ Hinv), !length_app, !length_fmap. lia.
Qed.

(** A run that has not returned can move, whatever happened so far. *)
Lemma progress (st : state) (calls : list call) :
  (0 < batch_size)%Z → invariant st calls →
  st_yielded st ≠ length search_terms →
  ∃ l st', step l st = Some st'.
Proof.
  intros Hsize Hinv Hnot. pose proof (invariant_count st calls Hinv) as Hcount.
  destruct (st_done st) as [|f done'] eqn:Hd.
  - destruct (st_running st) as [|term running'] eqn:Hr.
    + destruct (st_queue st) as [|term queue'] eqn:Hq; [simpl in Hcount; lia|].
      exists Start. simpl. rewrite Hq, Hr. simpl. case_decide; [eauto|lia].
    + exists (Post 0 (TransportFailure Timeout)). simpl. rewrite Hr. simpl. eauto.
  - exists (Yield 0). simpl. rewrite Hd. simpl. eauto.
Qed.

Lemma completion (n : nat) (st : state) (calls : list call) :
  (0 < batch_size)%Z → invariant st calls → pending st = n →
  ∃ ls st', exec ls st = Some st' ∧ st_yielded st' = length search_terms.
Proof.
  intros Hsize. revert st calls.
  induction n as [|n IH]; intros st calls Hinv Hpending.
  - exists [], st. split; [done|].
    pose proof (invariant_count st calls Hinv). unfold pending in Hpending. lia.
  - destruct (decide (st_yielded st = length search_terms)) as [Hret|Hnot].
    { by exists [], st. }
    destruct (progress st calls Hsize Hinv Hnot) as (l & st1 & Hstep).
    destruct (step_invariant l st st1 calls Hstep Hinv) as [calls1 Hinv1].
    pose proof (step_pending _ _ _ Hstep) as Hdec.
    destruct (IH st1 calls1 Hinv1 ltac:(lia)) as (ls & st' & Hexec & Hret).
    exists (l :: ls), st'. split; [|done]. simpl. by rewrite Hstep.
Qed.


End run.

Abbreviation process_in_batches :=
  (process_in_batches api_url api_key output_csv batch_size).

Lemma process_in_batches_Some (payload : RequestPayload)
    (search_terms : list string) (fs : filesystem) (ls : list label) (st : state) :
  process_in_batches payload search_terms fs ls = Ok (Some st) ↔
  (0 < batch_size)%Z ∧ exec ls (submitted payload search_terms fs) = Some st ∧
  returned_from search_terms st.
Proof.
  unfold process_in_batches, process_in_batches_enter, returned_from.
  case_decide; simpl.
  - split; [done|]. intros (? & _). lia.
  - destruct (exec ls _) as [st'|]; simpl.
    + case_decide; split.
      * intros [= ->]. repeat split; (done || lia).
      * by intros (_ & [= ->] & _).
      * done.
      * intros (_ & [= ->] & ?). done.
    + split; [done|]. by intros (_ & ? & _).
Qed.



(** C9: every write appends.  A second run of the batch against the same
    output file, in which the terms get the same mappings as in the
    first, leaves what the file held, then the rows of the first run,
    then as many rows again; a file that was missing or empty ends up
    with twice the rows it had after one run. *)
Theorem append_accumulates (payload payload' : RequestPayload)
    (search_terms : list string) (fs : filesystem) (ls ls' : list label)
    (st st' : state) :
  process_in_batches payload search_terms fs ls = Ok (Some st) →
  process_in_batches payload' search_terms (st_fs st) ls' = Ok (Some st') →
  st_results st' ≡ₚ st_results st →
  ∃ rows rows',
    read_rows (st_fs st) output_csv = read_rows fs output_csv ++ rows ∧
    read_rows (st_fs st') output_csv = read_rows fs output_csv ++ rows ++ rows' ∧
    length rows' = length rows ∧
    (read_rows fs output_csv = [] →
     length (read_rows (st_fs st') output_csv) =
     2 * length (read_rows (st_fs st) output_csv)).
Proof.
  intros (_ & Hexec & _)%process_in_batches_Some
         (_ & Hexec' & _)%process_in_batches_Some Hsame.
  destruct (exec_invariant search_terms fs ls _ st [] Hexec
              (submitted_invariant search_terms fs payload)) as [calls Hinv].
  destruct (exec_invariant search_terms (st_fs st) ls' _ st' [] Hexec'
              (submitted_invariant search_terms (st_fs st) payload')) as [calls' Hinv'].
  destruct Hinv as [_ _ Hrows _ _ Hres _ _ _].
  destruct Hinv' as [_ _ Hrows' _ _ Hres' _ _ _].
  exists (calls ≫= call_rows), (calls' ≫= call_rows).
  assert (length (calls' ≫= call_rows) = length (calls ≫= call_rows)) as Hlen.
  { rewrite Hres, Hres'. apply Permutation_length. by rewrite Hsame. }
  split; [done|]. split; [by rewrite Hrows', Hrows, app_assoc|]. split; [done|].
  intros Hempty. rewrite Hrows', Hrows, Hempty. simpl. rewrite length_app. lia.
Qed.

(** C10: the rows [append_to_csv] adds for a mapping that
    [parse_organic_results] returned follow the mapping's iteration
    order, so their counts never increase from one row to the next. *)
Theorem rows_by_descending_count (body : json) (m : hostname_count)
    (fs : filesystem) (filename search_term : string) :
  parse_organic_results body = Ok m →
  ∃ rows,
    read_rows (append_to_csv fs filename m search_term) filename =
      read_rows fs filename ++ rows ∧
    rows = rows_of search_term m ∧
    counts_descending rows.
Proof.
  intros Hparse. exists (rows_of search_term m).
  split; [|split; [done|]].
  - unfold append_to_csv, read_rows at 1. by rewrite lookup_insert_eq.
  - unfold parse_organic_results in Hparse.
    destruct (organic_results body) as [organic|]; [|done]. simpl in Hparse.
    destruct (py_slice10 organic) as [top_10|]; [|done]. simpl in Hparse.
    destruct (collect_links top_10 []) as [links|]; [|done]. simpl in Hparse.
    injection Hparse as <-. unfold counts_descending, rows_of.
    eapply Sorted_fmap; [|apply value_counts_descending]. done.
Qed.

End batch_properties.

(** ** The shared payload *)

Lemma call_api_payload_after `{!Urllib, !Pandas} (api_url api_key : string)
    (payload : RequestPayload) (search_term : string) (network : Request → http_outcome) :
  payload_after (call_api api_url api_key payload search_term network)
    = set_search_term payload search_term ∧
  req_json (request_sent (call_api api_url api_key payload search_term network))
    = set_search_term payload search_term.
Proof. done. Qed.

(** C1 does not hold of the code: [call_api] assigns the term into the
    payload object it was given.  After a call for ["seo"] on the payload
    of [main] that object holds [q = "seo"]; and with two workers the
    request sent for ["seo"] can carry the other task's term. *)
Theorem call_api_overwrites_template :
  (∀ network,
     let call := call_api default_api_url "key" default_payload "seo" network in
     data default_payload !! "q" = None ∧
     data (payload_after call) !! "q" = Some "seo" ∧
     payload_after call ≠ default_payload) ∧
  (∀ o o', ∃ st,
     exec default_api_url "key" "output.csv" 2 [Start; Start; Post 0 o; Post 0 o']
       (submitted default_payload ["seo"; "rocq"] ∅) = Some st ∧
     (λ sent : string * Request, (sent.1, data (req_json sent.2) !! "q")) <$> st_wire st
       = [("seo", Some "rocq"); ("rocq", Some "rocq")]).
Proof.
  split.
  - intros network call. split; [reflexivity|]. split; [reflexivity|].
    intros Heq. apply (f_equal (λ p, data p !! "q")) in Heq. discriminate Heq.
  - intros o o'. eexists. split; reflexivity.
Qed.

(** ** Sample runs *)



Lemma append_accumulates_witness :
  ∃ st st',
    process_in_batches default_api_url "key" "output.csv" 2
      default_payload sample_terms ∅ sample_schedule = Ok (Some st) ∧
    process_in_batches default_api_url "key" "output.csv" 2
      default_payload sample_terms (st_fs st) sample_schedule' = Ok (Some st') ∧
    length (read_rows (st_fs st) "output.csv") = 3 ∧
    length (read_rows (st_fs st') "output.csv") =
      2 * length (read_rows (st_fs st) "output.csv").
Proof.
  eexists. eexists.
  split; [vm_compute; reflexivity|]. split; [vm_compute; reflexivity|].
  split; [reflexivity|].
  edestruct (append_accumulates default_api_url "key" "output.csv" 2
               default_payload default_payload sample_terms ∅
               sample_schedule sample_schedule')
    as (rows & rows' & _ & _ & _ & Hdouble).
  - vm_compute. reflexivity.
  - vm_compute. reflexivity.
  - simpl. apply Permutation_swap.
  - apply Hdouble. reflexivity.
Defined.

Lemma rows_by_descending_count_witness :
  ∃ rows,
    read_rows (append_to_csv ∅ "output.csv" [("a.com", 2); ("b.com", 1)] "alpha") "output.csv"
      = read_rows ∅ "output.csv" ++ rows ∧
    rows = rows_of "alpha" [("a.com", 2); ("b.com", 1)] ∧
    counts_descending rows.
Proof.
  apply (rows_by_descending_count
           (organic_body (entry <$> ["https://a.com/1"; "https://a.com/2"; "https://b.com/"]))).
  vm_compute. reflexivity.
Defined.

(** * Further properties *)

(** ** The result parser *)

Section parser_further.
Context `{!Urllib, !Pandas}.

(** X1: over an organic list, the parser raises exactly when one of the
    first ten entries is not an object, and the exception is the
    [AttributeError] of [result.get]; entries past the tenth are never
    looked at, whatever they are. *)
Theorem parse_organic_results_raises (body : json) (l : list json) :
  organic_results body = Ok (JArr l) →
  (Forall is_object (take 10 l) → ∃ m, parse_organic_results body = Ok m) ∧
  (¬ Forall is_object (take 10 l) → parse_organic_results body = Raise AttributeError).
Proof.
  intros Hl. rewrite (parse_organic_results_array body l Hl). split; intros Hobj.
  - rewrite collect_links_objects by done. simpl. eauto.
  - by rewrite collect_links_not_object.
Qed.

Lemma entry_hostname_nonempty (r : json) (h : string) :
  entry_hostname r = Some h → h ≠ "".
Proof.
  unfold entry_hostname.
  destruct (extract_hostname _) as [[h'|]|]; [|done..].
  case_decide; [done|]. by intros [= <-].
Qed.

Lemma occurrences_cons (h x : string) (l : list string) :
  occurrences h (x :: l) = (if decide (h = x) then 1 else 0) + occurrences h l.
Proof. unfold occurrences. rewrite filter_cons. by case_decide. Qed.

Lemma sum_list_with_indicator (x : string) (keys : list string) :
  NoDup keys →
  sum_list_with (λ h, if decide (h = x) then 1 else 0) keys =
  if decide (x ∈ keys) then 1 else 0.
Proof.
  induction 1 as [|k keys Hk _ IH]; simpl; [done|]. rewrite IH.
  destruct (decide (k = x)) as [->|Hkx].
  - rewrite decide_False by done. rewrite decide_True by left. done.
  - destruct (decide (x ∈ keys)) as [Hx|Hx].
    + rewrite decide_True by by right. done.
    + rewrite decide_False; [done|]. intros [?|?]%elem_of_cons; congruence.
Qed.

(** Counting each of a duplicate-free list of values that covers [l]
    counts every element of [l] once. *)
Lemma sum_occurrences (keys l : list string) :
  NoDup keys → (∀ x, x ∈ l → x ∈ keys) →
  sum_list_with (λ h, occurrences h l) keys = length l.
Proof.
  intros Hnd. induction l as [|x l IH]; intros Hcover.
  - clear. by induction keys as [|k keys IHk].
  - assert (sum_list_with (λ h, occurrences h (x :: l)) keys =
            sum_list_with (λ h, if decide (h = x) then 1 else 0) keys +
            sum_list_with (λ h, occurrences h l) keys) as ->.
    { clear. induction keys as [|k keys IHk]; [done|]. simpl.
      rewrite occurrences_cons, IHk. lia. }
    rewrite IH by (intros y Hy; apply Hcover; by right).
    rewrite sum_list_with_indicator, decide_True; [done| |done].
    apply Hcover. left.
Qed.

Lemma value_counts_total (links : list string) :
  sum_list (value_counts links).*2 = length links.
Proof.
  rewrite <-(sum_occurrences (value_counts links).*1 links).
  - assert (∀ m : list (string * nat),
              (∀ h c, (h, c) ∈ m → c = occurrences h links) →
              sum_list m.*2 = sum_list_with (λ h, occurrences h links) m.*1) as Hsum.
    { induction m as [|[h c] m IH]; intros Hm; [done|].
      rewrite !fmap_cons. change (sum_list ((h, c).2 :: m.*2)) with (c + sum_list m.*2).
      change (sum_list_with ?f ((h, c).1 :: m.*1))
        with (f h + sum_list_with f m.*1).
      rewrite IH by (intros ? ? ?; apply Hm; by right).
      by rewrite (Hm h c) by left. }
    apply Hsum. intros h c Hin. by apply value_counts_elem in Hin as [_ ?].
  - apply value_counts_NoDup.
  - intros x Hx. apply list_elem_of_fmap. exists (x, occurrences x links).
    split; [done|]. by apply value_counts_elem.
Qed.

Lemma py_slice10_length (v : json) (top_10 : list json) :
  py_slice10 v = Ok top_10 → length top_10 ≤ 10.
Proof.
  destruct v; simpl; intros [= <-]; rewrite ?length_fmap, length_take; lia.
Qed.

(** The loop only appends, at most one host name per entry and never an
    empty one. *)
Lemma collect_links_appends (top_10 : list json) (links links' : list string) :
  collect_links top_10 links = Ok links' →
  ∃ new, links' = links ++ new ∧ length new ≤ length top_10 ∧ Forall (.≠ "") new.
Proof.
  revert links. induction top_10 as [|r rest IH]; intros links; simpl.
  - intros [= <-]. exists []. by rewrite app_nil_r.
  - destruct (py_get r "link" (JStr "")) as [link|]; [|done]. simpl.
    destruct (extract_hostname link) as [hostname|]; [|done]. simpl.
    intros (new & -> & Hlen & Hne)%IH.
    destruct hostname as [h|]; simpl; [case_decide|].
    + exists new. split; [done|]. split; [lia|done].
    + exists (h :: new). rewrite <-app_assoc. split; [done|].
      split; [simpl; lia|by constructor].
    + exists new. split; [done|]. split; [lia|done].
Qed.

(** X2: whatever the body, a mapping the parser returns has no empty host
    name as a key, counts of at least one, counts adding up to at most
    ten, and so at most ten keys. *)
Theorem parse_organic_results_bounds (body : json) (m : hostname_count) :
  parse_organic_results body = Ok m →
  Forall (λ item : string * nat, item.1 ≠ "" ∧ 1 ≤ item.2) m ∧
  sum_list m.*2 ≤ 10 ∧
  length m ≤ 10.
Proof.
  unfold parse_organic_results.
  destruct (organic_results body) as [organic|]; [|done]. simpl.
  destruct (py_slice10 organic) as [top_10|] eqn:Hslice; [|done]. simpl.
  destruct (collect_links top_10 []) as [links|] eqn:Hlinks; [|done]. simpl.
  intros [= <-].
  apply py_slice10_length in Hslice.
  apply collect_links_appends in Hlinks as (new & -> & Hlen & Hne). simpl in *.
  assert (Forall (λ item : string * nat, item.1 ≠ "" ∧ 1 ≤ item.2) (value_counts new))
    as Hitems.
  { apply Forall_forall. intros [h c] [Hin ->]%value_counts_elem. simpl. split.
    - rewrite Forall_forall in Hne. by apply Hne.
    - destruct (occurrences h new) eqn:Hocc; [|lia].
      by apply occurrences_zero in Hocc. }
  pose proof (value_counts_total new) as Htotal.
  split; [done|]. split; [lia|].
  assert (length (value_counts new) ≤ sum_list (value_counts new).*2); [|lia].
  clear Htotal. induction Hitems as [|[h c] m' [_ Hc] _ IH]; [done|].
  rewrite fmap_cons. change (sum_list ((h, c).2 :: m'.*2)) with (c + sum_list m'.*2).
  simpl in *. lia.
Qed.

(** X3: only which host names the first ten entries have decides the
    mapping, not where among the ten they stand: bodies whose first ten
    entries are the same up to order give the same dict. *)
Theorem parse_organic_results_order (body body' : json) (l l' : list json) :
  organic_results body = Ok (JArr l) →
  organic_results body' = Ok (JArr l') →
  Forall is_object (take 10 l) →
  take 10 l ≡ₚ take 10 l' →
  ∃ m m', parse_organic_results body = Ok m ∧ parse_organic_results body' = Ok m' ∧
    (list_to_map m : gmap string nat) = list_to_map m'.
Proof.
  intros Hl Hl' Hobj Hperm.
  rewrite (parse_organic_results_array body l Hl).
  rewrite (parse_organic_results_array body' l' Hl').
  rewrite !collect_links_objects by (done || by rewrite <-Hperm). simpl.
  do 2 eexists. split; [done|]. split; [done|].
  apply map_eq. intros h. rewrite !value_counts_lookup.
  assert (omap entry_hostname (take 10 l) ≡ₚ omap entry_hostname (take 10 l')) as Hlinks
    by by rewrite Hperm.
  unfold occurrences. repeat case_decide; rewrite <-?Hlinks in *; done.
Qed.

(** X4: when [organic] holds something other than an array, the parser
    returns the empty mapping for the empty string and raises for
    everything else. *)
Theorem parse_organic_results_not_array (body v : json) :
  organic_results body = Ok v →
  (∀ l, v ≠ JArr l) →
  (v = JStr "" → parse_organic_results body = Ok []) ∧
  (v ≠ JStr "" → raises (parse_organic_results body)).
Proof.
  intros Hv Hnot. unfold parse_organic_results. rewrite Hv. simpl.
  destruct v as [| | |s|l|]; simpl; try (split; [done|intros _; by eexists]).
  - destruct s as [|c s]; simpl.
    + split; [intros _; by rewrite value_counts_nil|done].
    + split; [done|intros _; by eexists].
  - by destruct (Hnot l).
Qed.

End parser_further.

(** ** The pool and the shared payload *)

Lemma set_search_term_twice (payload : RequestPayload) (t t' : string) :
  set_search_term (set_search_term payload t) t' = set_search_term payload t'.
Proof. unfold set_search_term. simpl. by rewrite insert_insert_eq. Qed.

Lemma payload_after_starts_snoc (payload : RequestPayload) (started : list string)
    (t : string) :
  set_search_term (payload_after_starts payload started) t =
  payload_after_starts payload (started ++ [t]).
Proof.
  unfold payload_after_starts. rewrite last_snoc. simpl.
  destruct (last started); simpl; [apply set_search_term_twice|done].
Qed.

Lemma payload_after_starts_elem (payload : RequestPayload) (started : list string)
    (t : string) :
  t ∈ started →
  ∃ t', t' ∈ started ∧ payload_after_starts payload started = set_search_term payload t'.
Proof.
  intros Ht. unfold payload_after_starts.
  destruct (last started) as [t'|] eqn:Hlast.
  - exists t'. split; [|done]. apply last_Some in Hlast as [l' ->].
    apply elem_of_app. right. left.
  - apply last_None in Hlast. subst. by apply elem_of_nil in Ht.
Qed.

Section batch_further.
Context `{!Urllib, !Pandas}.
Variables (api_url api_key output_csv : string) (batch_size : Z).

Abbreviation step' := (step api_url api_key output_csv batch_size).
Abbreviation exec' := (exec api_url api_key output_csv batch_size).

(** The loop body on a future of [call_api], state by state. *)
Lemma handle_future_cases (t : string) (o : http_outcome) (st : state) :
  (∃ m, succeeded o m ∧
     handle_future output_csv {| fut_term := t; fut_result := call_api_try t o |} st =
     {| st_payload := st_payload st; st_queue := st_queue st;
        st_running := st_running st; st_done := st_done st;
        st_yielded := st_yielded st; st_wire := st_wire st;
        st_fs := append_to_csv (st_fs st) output_csv m t;
        st_results := st_results st ++ [(t, m)];
        st_notices := st_notices st |}) ∨
  ((∀ m, ¬ succeeded o m) ∧
     handle_future output_csv {| fut_term := t; fut_result := call_api_try t o |} st =
     {| st_payload := st_payload st; st_queue := st_queue st;
        st_running := st_running st; st_done := st_done st;
        st_yielded := st_yielded st; st_wire := st_wire st;
        st_fs := st_fs st; st_results := st_results st;
        st_notices := st_notices st ++ [FailedToProcess t] |}).
Proof.
  unfold handle_future. simpl.
  destruct (call_api_try_cases t o) as [(m & Hs & ->)|[Hf [-> | ->]]].
  - left. exists m. split; [done|].
    destruct Hs as (_ & _ & _ & Hne). by destruct m.
  - by right.
  - by right.
Qed.

Section run.
Variables (payload : RequestPayload) (search_terms : list string) (fs : filesystem).

Abbreviation pool_invariant :=
  (pool_invariant api_url api_key output_csv batch_size payload search_terms fs).

Lemma submitted_pool_invariant :
  pool_invariant (submitted payload search_terms fs) [].
Proof. constructor; simpl; try done; [lia|tauto]. Qed.

Lemma step_pool_invariant (l : label) (st st' : state) (started : list string) :
  step' l st = Some st' → pool_invariant st started →
  ∃ started', pool_invariant st' started'.
Proof.
  intros Hstep [Hs Hp Hr Hb Hw Hf Hres Hn Hd].
  destruct l as [|i o|i]; simpl in Hstep.
  - destruct (st_queue st) as [|term queue] eqn:Hq; [done|].
    case_decide; [|done]. simplify_eq. exists (started ++ [term]).
    constructor; simpl; try done.
    + by rewrite <-app_assoc.
    + rewrite Hp. apply payload_after_starts_snoc.
    + apply Forall_app. split.
      * eapply Forall_impl; [done|]. intros t Ht. apply elem_of_app. by left.
      * constructor; [|done]. apply elem_of_app. right. left.
    + rewrite length_app. simpl. lia.
    + eapply Forall_impl; [done|]. intros sent (Hsender & t & Ht & Hsent).
      split; [apply elem_of_app; by left|].
      exists t. split; [apply elem_of_app; by left|done].
  - destruct (st_running st !! i) as [term|] eqn:Hi; [|done]. simpl in Hstep.
    simplify_eq.
    assert (term ∈ started) as Hterm.
    { rewrite Forall_forall in Hr. apply Hr. by eapply list_elem_of_lookup_2. }
    exists started. constructor; simpl; try done.
    + rewrite delete_take_drop. apply Forall_app.
      split; [by apply Forall_take|by apply Forall_drop].
    + pose proof (lookup_lt_Some _ _ _ Hi).
      rewrite length_delete by by eexists. lia.
    + apply Forall_app. split; [done|]. constructor; [|done]. simpl.
      split; [done|].
      destruct (payload_after_starts_elem payload started term Hterm)
        as (t' & Ht' & Heq).
      exists t'. split; [done|]. by rewrite Hp, Heq.
    + apply Forall_app. split; [done|]. constructor; [|done]. by exists o.
  - destruct (st_done st !! i) as [f|] eqn:Hi; [|done]. simpl in Hstep.
    simplify_eq.
    assert (∃ o, fut_result f = call_api_try (fut_term f) o) as [o Ho].
    { eapply Forall_forall in Hd; [done|]. by eapply list_elem_of_lookup_2. }
    assert (Forall (λ f, ∃ o, fut_result f = call_api_try (fut_term f) o)
              (delete i (st_done st))) as Hd'.
    { rewrite delete_take_drop. apply Forall_app.
      split; [by apply Forall_take|by apply Forall_drop]. }
    destruct f as [t r]. simpl in Ho. subst r. exists started.
    match goal with |- context [handle_future _ _ ?s] =>
      destruct (handle_future_cases t o s) as [(m & Hsucc & ->)|[Hfail ->]]
    end; constructor; simpl; try done.
    + unfold append_to_csv. rewrite lookup_insert_eq. split; [done|].
      intros [_ Hnil]. by destruct (st_results st).
    + apply Forall_app. split; [done|]. constructor; [|done]. simpl.
      by destruct Hsucc as (_ & _ & _ & ?).
    + apply Forall_app. split; [done|]. constructor; [|done]. by exists t.
Qed.

Lemma exec_pool_invariant (ls : list label) (st st' : state) (started : list string) :
  exec' ls st = Some st' → pool_invariant st started →
  ∃ started', pool_invariant st' started'.
Proof.
  revert st started. induction ls as [|l ls IH]; intros st started Hexec Hinv;
    simpl in Hexec.
  - simplify_eq. eauto.
  - destruct (step' l st) as [st1|] eqn:Hstep; [|done]. simpl in Hexec.
    destruct (step_pool_invariant l st st1 started Hstep Hinv) as [started1 Hinv1].
    eauto.
Qed.

Lemma reachable_pool_invariant (ls : list label) (st : state) :
  exec' ls (submitted payload search_terms fs) = Some st →
  ∃ started, pool_invariant st started.
Proof. intros Hexec. eapply exec_pool_invariant; [done|apply submitted_pool_invariant]. Qed.

Lemma pool_invariant_started (st : state) (started : list string) (t : string) :
  pool_invariant st started → t ∈ started → t ∈ search_terms.
Proof.
  intros Hinv Ht. rewrite <-(pinv_started _ _ _ _ _ _ _ _ _ Hinv).
  apply elem_of_app. by left.
Qed.


Lemma step_single_worker (l : label) (st st' : state) :
  (batch_size ≤ 1)%Z → step' l st = Some st' →
  single_worker_invariant api_url api_key payload st →
  single_worker_invariant api_url api_key payload st'.
Proof.
  intros Hone Hstep [Hr Hp Hw].
  destruct l as [|i o|i]; simpl in Hstep.
  - destruct (st_queue st) as [|term queue] eqn:Hq; [done|].
    case_decide as Hfree; [|done]. simplify_eq.
    assert (st_running st = []) as Hnone
      by (destruct (st_running st); [done|simpl in Hfree; lia]).
    assert (set_search_term (st_payload st) term = set_search_term payload term) as Hset.
    { destruct Hp as [->|[t ->]]; [done|apply set_search_term_twice]. }
    constructor; simpl; [|by right; eexists|done].
    right. exists term. by rewrite Hnone.
  - destruct (st_running st !! i) as [term|] eqn:Hi; [|done]. simpl in Hstep.
    simplify_eq. destruct Hr as [Hr|(t & Hr & Hpay)]; [by rewrite Hr in Hi|].
    rewrite Hr in Hi. destruct i as [|i]; [|done]. simpl in Hi. simplify_eq.
    constructor; simpl; [left; by rewrite Hr|done|].
    apply Forall_app. split; [done|]. constructor; [|done]. simpl. by rewrite Hpay.
  - destruct (st_done st !! i) as [f|] eqn:Hi; [|done]. simpl in Hstep.
    simplify_eq. unfold handle_future.
    by destruct (fut_result f) as [[t [[|item m]|]]|e]; constructor.
Qed.

Lemma exec_single_worker (ls : list label) (st st' : state) :
  (batch_size ≤ 1)%Z → exec' ls st = Some st' →
  single_worker_invariant api_url api_key payload st →
  single_worker_invariant api_url api_key payload st'.
Proof.
  intros Hone. revert st. induction ls as [|l ls IH]; intros st Hexec Hinv;
    simpl in Hexec.
  - by simplify_eq.
  - destruct (step' l st) as [st1|] eqn:Hstep; [|done]. simpl in Hexec.
    eapply IH; [done|]. by eapply step_single_worker.
Qed.

End run.

(** X5: whatever the schedule, each request that goes out was sent by the
    task of a submitted term, goes to the given URL with the three headers,
    and its body is the template with [q] set to a submitted term, though
    not always the sender's (C1). *)
Theorem requests_from_template (payload : RequestPayload)
    (search_terms : list string) (fs : filesystem) (ls : list label) (st : state) :
  exec' ls (submitted payload search_terms fs) = Some st →
  Forall (λ sent : string * Request,
            sent.1 ∈ search_terms ∧
            req_url sent.2 = api_url ∧
            req_headers sent.2 = headers api_key ∧
            ∃ t, t ∈ search_terms ∧
              data (req_json sent.2) = <["q" := t]> (data payload))
         (st_wire st).
Proof.
  intros [started Hinv]%reachable_pool_invariant.
  eapply Forall_impl; [apply (pinv_wire _ _ _ _ _ _ _ _ _ Hinv)|].
  intros [sender req] (Hsender & t & Ht & ->). simpl.
  split; [by eapply pool_invariant_started|]. do 2 (split; [done|]).
  exists t. split; [by eapply pool_invariant_started|done].
Qed.


(** X7: with a single worker every request carries the term of the task
    that sent it: the mix-up of C1 needs two calls in flight. *)
Theorem single_worker_requests (payload : RequestPayload)
    (search_terms : list string) (fs : filesystem) (ls : list label) (st : state) :
  (batch_size ≤ 1)%Z →
  exec' ls (submitted payload search_terms fs) = Some st →
  Forall (λ sent : string * Request,
            data (req_json sent.2) = <["q" := sent.1]> (data payload))
         (st_wire st).
Proof.
  intros Hone Hexec.
  assert (single_worker_invariant api_url api_key payload st) as [_ _ Hw].
  { eapply exec_single_worker; [done..|]. constructor; simpl; auto. }
  eapply Forall_impl; [done|]. by intros [sender req] ->.
Qed.





(** X12: on an empty list of terms the batch returns without a move:
    nothing is sent, written or shown, and the result list is empty. *)
Theorem process_in_batches_no_terms (payload : RequestPayload)
    (fs : filesystem) (ls : list label) (st : state) :
  process_in_batches api_url api_key output_csv batch_size payload [] fs ls
    = Ok (Some st) →
  ls = [] ∧ st = submitted payload [] fs.
Proof.
  intros (_ & Hexec & _)%process_in_batches_Some.
  pose proof (exec_pending _ _ _ _ _ _ _ Hexec) as Hp.
  unfold pending in Hp at 1. simpl in Hp.
  destruct ls; [|simpl in Hp; lia]. simpl in Hexec. by simplify_eq.
Qed.

End batch_further.

(** ** The script *)

Section main_properties.
Context `{!Urllib, !Pandas}.

(** [main] on inputs that are in place. *)
Lemma main_ready (f : form) (search_terms : list string) (fs : filesystem)
    (ls : list label) :
  ready f search_terms →
  main f fs ls =
    match process_in_batches (in_api_url f) (in_api_key f) (in_output_csv f)
            (in_batch_size f) (build_payload f) search_terms fs ls with
    | Raise e =>
        Some {| run_fs := fs; run_wire := []; run_shown := []; run_raised := Some e |}
    | Ok None => None
    | Ok (Some st) =>
        match st_fs st !! in_output_csv f with
        | None =>
            Some {| run_fs := st_fs st; run_wire := st_wire st;
                    run_shown := (ShowNotice <$> st_notices st) ++ [ShowComplete];
                    run_raised := Some OSError |}
        | Some content =>
            Some {| run_fs := st_fs st; run_wire := st_wire st;
                    run_shown := ((ShowNotice <$> st_notices st) ++ [ShowComplete]) ++
                                 [ShowDownload (in_output_csv f) content];
                    run_raised := None |}
        end
    end.
Proof.
  intros (Hstart & Hurl & Hkey & terms_df & Hcsv & Hcol).
  unfold main, start_processing, column, open_rb.
  rewrite Hstart, Hcsv, Hcol. rewrite decide_True by done.
  destruct (process_in_batches _ _ _ _ _ _ _ _) as [[st|]|e]; [|done..].
  by destruct (st_fs st !! in_output_csv f).
Qed.

(** Either the inputs are in place or [main] touches nothing. *)
Lemma main_cases (f : form) (fs : filesystem) (ls : list label) (r : script_run) :
  main f fs ls = Some r →
  (∃ search_terms, ready f search_terms) ∨ (run_fs r = fs ∧ run_wire r = []).
Proof.
  unfold main, start_processing, column, ready.
  destruct (in_start f) eqn:Hstart; [|intros [= <-]; by right].
  destruct (in_input_csv f) as [[terms_df|e]|] eqn:Hcsv; [| |intros [= <-]; by right].
  - case_decide as Hboth; [|intros [= <-]; by right].
    destruct (terms_df !! "search_terms") as [search_terms|] eqn:Hcol;
      [|intros [= <-]; by right].
    intros _. left. exists search_terms. destruct Hboth. eauto 10.
  - case_decide; intros [= <-]; by right.
Qed.

(** X13: [main] sends a request or changes a file only when the start
    button was pressed, the endpoint and the key are not empty, the
    uploaded file parsed and has a [search_terms] column, and the pool
    size is positive. *)
Theorem main_effects_only_when_ready (f : form) (fs : filesystem)
    (ls : list label) (r : script_run) :
  main f fs ls = Some r →
  run_wire r ≠ [] ∨ run_fs r ≠ fs →
  (∃ search_terms, ready f search_terms) ∧ (0 < in_batch_size f)%Z.
Proof.
  intros Hmain Heffect.
  destruct (main_cases f fs ls r Hmain) as [[search_terms Hready]|[? ?]]; [|tauto].
  split; [by exists search_terms|].
  rewrite (main_ready f search_terms) in Hmain by done.
  destruct (process_in_batches _ _ _ _ _ _ _ _) as [[st|]|e] eqn:Hrun.
  - by apply process_in_batches_Some in Hrun as [? _].
  - done.
  - injection Hmain as <-. simpl in *. tauto.
Qed.


(** X15: the body of every request [main] sends has exactly the eight
    fields [domain], [loc], [lang], [device], [serp_type], [page],
    [verbatim] and [q], the first seven as the form gives them: what is
    typed into "Number Of Results" is sent nowhere. *)
Theorem main_requests (f : form) (fs : filesystem) (ls : list label) (r : script_run) :
  main f fs ls = Some r →
  Forall (λ sent : string * Request,
            dom (data (req_json sent.2)) =
              ({[ "domain"; "loc"; "lang"; "device"; "serp_type"; "page";
                  "verbatim"; "q" ]} : gset string) ∧
            ∀ k, k ≠ "q" → data (req_json sent.2) !! k = data (build_payload f) !! k)
         (run_wire r).
Proof.
  intros Hmain.
  destruct (main_cases f fs ls r Hmain) as [[search_terms Hready]|[_ ->]];
    [|constructor].
  rewrite (main_ready f search_terms) in Hmain by done.
  destruct (process_in_batches _ _ _ _ _ _ _ _) as [[st|]|e] eqn:Hrun;
    [| done |injection Hmain as <-; constructor].
  apply process_in_batches_Some in Hrun as (_ & Hexec & _).
  destruct (reachable_pool_invariant _ _ _ _ _ _ _ _ _ Hexec) as [started Hpool].
  assert (run_wire r = st_wire st) as ->
    by (destruct (st_fs st !! in_output_csv f); by injection Hmain as <-).
  eapply Forall_impl; [apply (pinv_wire _ _ _ _ _ _ _ _ _ Hpool)|].
  intros [sender req] (_ & t & _ & ->). simpl. split.
  - rewrite !dom_insert_L, dom_singleton_L. set_solver.
  - intros k Hk. by rewrite lookup_insert_ne.
Qed.

(** X16: with the inputs in place and the slider in its range of 10 to
    100, the script has a run that goes through the whole batch, and no
    run ends in an exception other than the one of the missing output
    file. *)
Theorem main_completes (f : form) (search_terms : list string) (fs : filesystem) :
  ready f search_terms → form_in_range f →
  (∃ ls r, main f fs ls = Some r) ∧
  (∀ ls r, main f fs ls = Some r → run_raised r = None ∨ run_raised r = Some OSError).
Proof.
  intros Hready (_ & _ & Hsize & _).
  assert (∀ ls, process_in_batches (in_api_url f) (in_api_key f) (in_output_csv f)
            (in_batch_size f) (build_payload f) search_terms fs ls ≠ Raise ValueError ∧
            ∀ e, process_in_batches (in_api_url f) (in_api_key f) (in_output_csv f)
            (in_batch_size f) (build_payload f) search_terms fs ls ≠ Raise e) as Hpool.
  { intros ls. unfold process_in_batches, process_in_batches_enter.
    rewrite decide_False by lia. simpl. done. }
  split.
  - destruct (completion (in_api_url f) (in_api_key f) (in_output_csv f)
                (in_batch_size f) search_terms fs _
                (submitted (build_payload f) search_terms fs) [] ltac:(lia)
                (submitted_invariant _ search_terms fs (build_payload f)) eq_refl)
      as (ls & st & Hexec & Hret).
    exists ls. rewrite (main_ready f search_terms) by done.
    assert (process_in_batches (in_api_url f) (in_api_key f) (in_output_csv f)
              (in_batch_size f) (build_payload f) search_terms fs ls = Ok (Some st))
      as -> by (apply process_in_batches_Some; repeat split; (done || lia)).
    destruct (st_fs st !! in_output_csv f); eauto.
  - intros ls r. rewrite (main_ready f search_terms) by done.
    destruct (process_in_batches _ _ _ _ _ _ _ _) as [[st|]|e] eqn:Hrun.
    + destruct (st_fs st !! in_output_csv f); intros [= <-]; simpl; auto.
    + done.
    + by destruct (proj2 (Hpool ls) e).
Qed.

End main_properties.

(** ** Runs of the further properties *)

Lemma parse_organic_results_raises_witness :
  (∃ m, parse_organic_results
          (organic_body (replicate 10 (entry "https://a.com/") ++ [JNull])) = Ok m) ∧
  parse_organic_results (organic_body [entry "https://a.com/"; JNull])
    = Raise AttributeError.
Proof.
  split.
  - apply (parse_organic_results_raises _ (replicate 10 (entry "https://a.com/") ++ [JNull]));
      [reflexivity|]. each_entry ltac:(exact I).
  - apply (parse_organic_results_raises _ [entry "https://a.com/"; JNull]);
      [reflexivity|].
    intros Hobj. simpl in Hobj. inversion Hobj as [|? ? _ Hrest].
    inversion Hrest as [|? ? Hnull _]. exact Hnull.
Defined.

Lemma parse_organic_results_bounds_witness :
  Forall (λ item : string * nat, item.1 ≠ "" ∧ 1 ≤ item.2)
    [("a.com", 2); ("b.com", 1)] ∧
  sum_list [("a.com", 2); ("b.com", 1)].*2 ≤ 10 ∧
  length [("a.com", 2); ("b.com", 1)] ≤ 10.
Proof.
  apply (parse_organic_results_bounds
           (organic_body (entry <$> ["https://a.com/1"; "https://a.com/2"; "https://b.com/"]))).
  vm_compute. reflexivity.
Defined.

Lemma parse_organic_results_order_witness :
  ∃ m m',
    parse_organic_results
      (organic_body [entry "https://a.com/"; entry "https://b.com/"]) = Ok m ∧
    parse_organic_results
      (organic_body [entry "https://b.com/"; entry "https://a.com/"]) = Ok m' ∧
    (list_to_map m : gmap string nat) = list_to_map m'.
Proof.
  apply (parse_organic_results_order _ _
           [entry "https://a.com/"; entry "https://b.com/"]
           [entry "https://b.com/"; entry "https://a.com/"]);
    [reflexivity|reflexivity| |].
  - each_entry ltac:(exact I).
  - simpl. apply Permutation_swap.
Defined.

Lemma parse_organic_results_not_array_witness :
  parse_organic_results
    (JObj {[ "results" := JObj {[ "results" := JObj {[ "organic" := JStr "" ]} ]} ]})
    = Ok [] ∧
  raises (parse_organic_results
    (JObj {[ "results" := JObj {[ "results" := JObj {[ "organic" := JNull ]} ]} ]})).
Proof.
  split.
  - apply (parse_organic_results_not_array _ (JStr "")); [reflexivity|done|reflexivity].
  - apply (parse_organic_results_not_array _ JNull); [reflexivity|done|done].
Defined.

Lemma requests_from_template_witness :
  ∃ st,
    exec default_api_url "key" "output.csv" 2 sample_schedule
      (submitted default_payload sample_terms ∅) = Some st ∧
    length (st_wire st) = 3 ∧
    Forall (λ sent : string * Request,
              sent.1 ∈ sample_terms ∧
              req_url sent.2 = default_api_url ∧
              req_headers sent.2 = headers "key" ∧
              ∃ t, t ∈ sample_terms ∧
                data (req_json sent.2) = <["q" := t]> (data default_payload))
           (st_wire st).
Proof.
  eexists. split; [vm_compute; reflexivity|]. split; [reflexivity|].
  apply (requests_from_template default_api_url "key" "output.csv" 2
           default_payload sample_terms ∅ sample_schedule).
  vm_compute. reflexivity.
Defined.


Lemma single_worker_requests_witness :
  ∃ st,
    exec default_api_url "key" "output.csv" 1 sample_schedule_one
      (submitted default_payload sample_terms ∅) = Some st ∧
    length (st_wire st) = 3 ∧
    Forall (λ sent : string * Request,
              data (req_json sent.2) = <["q" := sent.1]> (data default_payload))
           (st_wire st).
Proof.
  eexists. split; [vm_compute; reflexivity|]. split; [reflexivity|].
  apply (single_worker_requests default_api_url "key" "output.csv" 1
           default_payload sample_terms ∅ sample_schedule_one); [lia|].
  vm_compute. reflexivity.
Defined.






Lemma process_in_batches_no_terms_witness :
  process_in_batches default_api_url "key" "output.csv" 2 default_payload [] ∅ []
    = Ok (Some (submitted default_payload [] ∅)) ∧
  ([] : list label) = [] ∧
  submitted default_payload [] ∅ = submitted default_payload [] ∅.
Proof.
  split; [reflexivity|].
  apply (process_in_batches_no_terms default_api_url "key" "output.csv" 2
           default_payload ∅ [] (submitted default_payload [] ∅)).
  reflexivity.
Defined.

Lemma sample_form_ready : ready sample_form sample_terms.
Proof.
  split; [reflexivity|]. split; [discriminate|]. split; [discriminate|].
  eexists. split; reflexivity.
Defined.

Lemma sample_form_in_range : form_in_range sample_form.
Proof.
  split; [left|]. split; [left|]. simpl. lia.
Defined.

Lemma main_effects_only_when_ready_witness :
  ∃ r,
    main sample_form ∅ sample_schedule = Some r ∧
    length (run_wire r) = 3 ∧
    (∃ search_terms, ready sample_form search_terms) ∧
    (0 < in_batch_size sample_form)%Z.
Proof.
  eexists. split; [vm_compute; reflexivity|]. split; [reflexivity|].
  eapply (main_effects_only_when_ready sample_form ∅ sample_schedule).
  - vm_compute. reflexivity.
  - left. discriminate.
Defined.




Lemma main_requests_witness :
  ∃ r,
    main sample_form ∅ sample_schedule = Some r ∧
    length (run_wire r) = 3 ∧
    Forall (λ sent : string * Request,
              dom (data (req_json sent.2)) =
                ({[ "domain"; "loc"; "lang"; "device"; "serp_type"; "page";
                    "verbatim"; "q" ]} : gset string) ∧
              ∀ k, k ≠ "q" →
                data (req_json sent.2) !! k = data (build_payload sample_form) !! k)
           (run_wire r).
Proof.
  eexists. split; [vm_compute; reflexivity|]. split; [reflexivity|].
  apply (main_requests sample_form ∅ sample_schedule).
  vm_compute. reflexivity.
Defined.

Lemma main_completes_witness :
  (∃ ls r, main sample_form ∅ ls = Some r) ∧
  (∀ ls r, main sample_form ∅ ls = Some r →
     run_raised r = None ∨ run_raised r = Some OSError).
Proof.
  apply (main_completes sample_form sample_terms ∅).
  - exact sample_form_ready.
  - exact sample_form_in_range.
Defined.
